(** * go-mavlink packet codec: a shallow embedding and its properties

    The development follows the codec source of package [mavlink]: the wire
    constants, the [Packet] record, the streaming and buffer decoders and the
    encoder.
    Bytes are [Byte.byte] (read as numbers through coqutil's
    [byte.unsigned]); 16-bit quantities are [Z] with the wrap-around written
    out; Go slices carry their hidden capacity; run-time panics are an
    explicit outcome. *)

From Stdlib Require Import String ZArith List Lia Bool.
From coqutil Require Import Byte.
Import ListNotations.
Local Open Scope Z_scope.

(** ** Wire constants *)

Definition startByte : byte := Byte.xfe.
Definition numChecksumBytes : nat := 2.
Definition hdrLen : nat := 6.

(** ** Errors

    [ErrUnknownMsgID] and [ErrCrcFail] are the package's own values,
    [ErrInvalidHeader] is the [errors.New("invalid header")] of
    [DecodeBytes]; [EOF], [ErrUnexpectedEOF] and [ErrShortWrite] come from
    Go's [io]; [ErrIO] stands for a failure of the underlying stream. *)

Inductive error : Type :=
| ErrUnknownMsgID
| ErrCrcFail
| ErrInvalidHeader
| EOF
| ErrUnexpectedEOF
| ErrShortWrite
| ErrIO.

(** ** Outcomes: a Go call either panics or returns *)

Inductive outcome (A : Type) : Type :=
| Panic
| Done (a : A).
Arguments Panic {A}.
Arguments Done {A} a.

Definition bind {A B : Type} (o : outcome A) (k : A -> outcome B) : outcome B :=
  match o with
  | Panic => Panic
  | Done a => k a
  end.

Notation "x <- e ;; k" := (bind e (fun x => k))
  (at level 61, e at next level, right associativity).

(** ** Go byte slices

    A slice shows [vis] (its [len] elements) and sits on a backing array
    that continues with [spare] (up to its [cap]).  Indexing is checked
    against the length, re-slicing against the capacity. *)

Module Slice.

Record t : Type := mk { vis : list byte; spare : list byte }.

Definition of_list (l : list byte) : t := {| vis := l; spare := [] |}.

Definition len (s : t) : nat := length (vis s).
Definition cap (s : t) : nat := (length (vis s) + length (spare s))%nat.

(** [s[i]] *)
Definition index (s : t) (i : nat) : outcome byte :=
  match nth_error (vis s) i with
  | Some b => Done b
  | None => Panic
  end.

(** [s[lo:hi]]: panics unless [lo <= hi <= cap(s)] *)
Definition range (s : t) (lo hi : nat) : outcome t :=
  if (lo <=? hi)%nat && (hi <=? cap s)%nat then
    let arr := vis s ++ spare s in
    Done {| vis := firstn (hi - lo) (skipn lo arr); spare := skipn hi arr |}
  else Panic.

(** [s[lo:]]: the upper bound defaults to [len(s)] *)
Definition from (s : t) (lo : nat) : outcome t := range s lo (len s).

End Slice.

(** ** The checksum engine *)

Module x25.

(** Modelled from the spec: the [x25] package is not among the sources.
    CRC-16/X25 as the spec describes it: reflected polynomial 0x1021
    (0x8408), initial value 0xFFFF, each byte folded in through the
    256-entry lookup table, the result being the raw 16-bit register. *)
Record X25 : Type := mk { crc : Z }.

Definition New : X25 := {| crc := 0xffff |}.

Definition shift1 (c : Z) : Z :=
  if Z.odd c then Z.lxor (Z.shiftr c 1) 0x8408 else Z.shiftr c 1.

Definition table (i : Z) : Z := Nat.iter 8 shift1 i.

Definition WriteByte (x : X25) (b : byte) : X25 :=
  {| crc := Z.lxor (Z.shiftr (crc x) 8)
                   (table (Z.land (Z.lxor (crc x) (byte.unsigned b)) 0xff)) |}.

Definition Write (x : X25) (p : list byte) : X25 := fold_left WriteByte p x.

Definition Sum16 (x : X25) : Z := crc x.

End x25.

(** ** The dialect registry *)

(** Modelled from the spec: the dialect file is not among the sources.  A
    dialect is an immutable mapping from message id to crc-extra; a registry
    is the ordered list of registered dialects. *)
Record Dialect : Type := { Name : string; crcExtras : list (byte * byte) }.

Definition DialectSlice : Type := list Dialect.

Definition crcExtra (d : Dialect) (msgid : byte) : option byte :=
  match find (fun kv => Byte.eqb (fst kv) msgid) (crcExtras d) with
  | Some kv => Some (snd kv)
  | None => None
  end.

(** Modelled from the spec: lookup tries the dialects in registration order,
    the first that defines the id wins, and an id that no dialect defines is
    [ErrUnknownMsgID]. *)
Fixpoint findCrcX (ds : DialectSlice) (msgid : byte) : byte + error :=
  match ds with
  | [] => inr ErrUnknownMsgID
  | d :: rest =>
      match crcExtra d msgid with
      | Some crcx => inl crcx
      | None => findCrcX rest msgid
      end
  end.

(** Modelled from the spec: [Add] appends a dialect to the resolution
    order. *)
Definition Add (ds : DialectSlice) (d : Dialect) : DialectSlice := ds ++ [d].

(** ** Packets *)

Record Packet : Type := {
  SeqID : byte;
  SysID : byte;
  CompID : byte;
  MsgID : byte;
  Payload : list byte;
  Checksum : Z
}.

Definition setPayload (p : Packet) (pl : list byte) : Packet :=
  {| SeqID := SeqID p; SysID := SysID p; CompID := CompID p; MsgID := MsgID p;
     Payload := pl; Checksum := Checksum p |}.

Definition setChecksum (p : Packet) (c : Z) : Packet :=
  {| SeqID := SeqID p; SysID := SysID p; CompID := CompID p; MsgID := MsgID p;
     Payload := Payload p; Checksum := c |}.

(** [newPacketFromBytes]: header populated from the received bytes, together
    with the declared payload length.  The composite literal reads [b[1]] to
    [b[4]], then [b[0]]. *)
Definition newPacketFromBytes (b : Slice.t) : outcome (Packet * nat) :=
  b1 <- Slice.index b 1 ;;
  b2 <- Slice.index b 2 ;;
  b3 <- Slice.index b 3 ;;
  b4 <- Slice.index b 4 ;;
  b0 <- Slice.index b 0 ;;
  Done ({| SeqID := b1; SysID := b2; CompID := b3; MsgID := b4;
           Payload := []; Checksum := 0 |},
        Z.to_nat (byte.unsigned b0)).

(** [u16ToBytes] and [bytesToU16]: little-endian, the latter without any
    check of the size of [p]. *)
Definition u16ToBytes (v : Z) : list byte :=
  [byte.of_Z (Z.land v 0xff); byte.of_Z (Z.shiftr v 8)].

Definition bytesToU16 (p : Slice.t) : outcome Z :=
  hi <- Slice.index p 1 ;;
  lo <- Slice.index p 0 ;;
  Done (Z.lor ((Z.shiftl (byte.unsigned hi) 8) mod 65536) (byte.unsigned lo)).

(** ** The byte source ([bufio.Reader] over an [io.Reader])

    The bytes still to come, and the error the stream reports once they
    are exhausted ([EOF] for a clean end). *)

Record Reader : Type := { pending : list byte; fail : error }.

Definition ReadByte (r : Reader) : Reader * (byte + error) :=
  match pending r with
  | [] => (r, inr (fail r))
  | c :: rest => ({| pending := rest; fail := fail r |}, inl c)
  end.

(** [io.ReadFull]: exactly [n] bytes, or an error; a clean end after some
    but not all bytes is [ErrUnexpectedEOF]. *)
Definition ReadFull (r : Reader) (n : nat) : Reader * (list byte + error) :=
  if (n <=? length (pending r))%nat then
    ({| pending := skipn n (pending r); fail := fail r |},
     inl (firstn n (pending r)))
  else
    ({| pending := []; fail := fail r |},
     inr (match pending r, fail r with
          | _ :: _, EOF => ErrUnexpectedEOF
          | _, e => e
          end)).

(** The synchronisation loop of [Decode]: [ReadByte] until the start byte
    has been read or the source fails.  It recurses on the bytes still to
    come; [seekStart_ReadByte] below shows it is the loop over [ReadByte]. *)
Fixpoint seekStart (l : list byte) (e : error) : Reader * option error :=
  match l with
  | [] => ({| pending := []; fail := e |}, Some e)
  | c :: rest =>
      if Byte.eqb c startByte then ({| pending := rest; fail := e |}, None)
      else seekStart rest e
  end.

(** ** The decoder *)

Module Decoder.

Record t : Type := mk {
  CurrSeqID : byte;
  Dialects : DialectSlice;
  br : Reader
}.

Definition setReader (dec : t) (r : Reader) : t :=
  {| CurrSeqID := CurrSeqID dec; Dialects := Dialects dec; br := r |}.

Definition setSeqID (dec : t) (s : byte) : t :=
  {| CurrSeqID := s; Dialects := Dialects dec; br := br dec |}.

(** What a call leaves behind and hands back: the decoder, the [*Packet]
    ([None] for nil) and the [error] ([None] for nil). *)
Definition result : Type := (t * option Packet * option error)%type.

(** [Decode]: reads and parses one frame from the reader. *)
Definition Decode (dec : t) : outcome result :=
  match seekStart (pending (br dec)) (fail (br dec)) with
  | (r0, Some err) => Done (setReader dec r0, None, Some err)
  | (r0, None) =>
      match ReadFull r0 5 with
      | (r1, inr err) => Done (setReader dec r1, None, Some err)
      | (r1, inl hdr) =>
          ppl <- newPacketFromBytes (Slice.of_list hdr) ;;
          let p := fst ppl in
          let payloadLen := snd ppl in
          let crc := x25.Write x25.New hdr in
          match ReadFull r1 (payloadLen + numChecksumBytes) with
          | (r2, inr err) => Done (setReader dec r2, Some p, Some err)
          | (r2, inl bufl) =>
              let buf := Slice.of_list bufl in
              pl <- Slice.range buf 0 payloadLen ;;
              let p := setPayload p (Slice.vis pl) in
              let crc := x25.Write crc (Payload p) in
              match findCrcX (Dialects dec) (MsgID p) with
              | inr err => Done (setReader dec r2, Some p, Some err)
              | inl crcx =>
                  let crc := x25.WriteByte crc crcx in
                  tl <- Slice.from buf payloadLen ;;
                  sum <- bytesToU16 tl ;;
                  let p := setChecksum p sum in
                  if negb (Checksum p =? x25.Sum16 crc) then
                    Done (setReader dec r2, Some p, Some ErrCrcFail)
                  else
                    Done (setSeqID (setReader dec r2) (SeqID p), Some p, None)
              end
          end
      end
  end.

(** [DecodeBytes]: decodes a packet from a previously received buffer. *)
Definition DecodeBytes (dec : t) (b : Slice.t) : outcome result :=
  bad <- (if (Slice.len b <? hdrLen)%nat then Done true
          else c <- Slice.index b 0 ;; Done (negb (Byte.eqb c startByte))) ;;
  if (bad : bool) then Done (dec, None, Some ErrInvalidHeader)
  else
    b1 <- Slice.from b 1 ;;
    ppl <- newPacketFromBytes b1 ;;
    let p := fst ppl in
    let payloadLen := snd ppl in
    let crc := x25.New in
    pl <- Slice.range b hdrLen (hdrLen + payloadLen) ;;
    let p := setPayload p (Slice.vis pl) in
    body <- Slice.range b 1 (hdrLen + payloadLen) ;;
    let crc := x25.Write crc (Slice.vis body) in
    match findCrcX (Dialects dec) (MsgID p) with
    | inr err => Done (dec, Some p, Some err)
    | inl crcx =>
        let crc := x25.WriteByte crc crcx in
        tl <- Slice.from b (hdrLen + payloadLen) ;;
        sum <- bytesToU16 tl ;;
        let p := setChecksum p sum in
        if negb (Checksum p =? x25.Sum16 crc) then
          Done (dec, Some p, Some ErrCrcFail)
        else
          Done (setSeqID dec (SeqID p), Some p, None)
    end.

End Decoder.

(** ** The byte sink ([bufio.Writer] over an [io.Writer])

    The underlying writer has received [out] and accepts [budget] more
    bytes; asked for more it takes what fits and reports [ErrIO]. *)

Record Sink : Type := { out : list byte; budget : nat }.

Definition sinkWrite (s : Sink) (p : list byte) : Sink * nat * option error :=
  if (length p <=? budget s)%nat then
    ({| out := out s ++ p; budget := budget s - length p |}, length p, None)
  else
    ({| out := out s ++ firstn (budget s) p; budget := 0 |}, budget s, Some ErrIO).

(** [bufio.Writer]: [buf] holds the buffered bytes ([b.n] of them), [size]
    is the length of the buffer, [werr] the sticky error. *)
Record Writer : Type := {
  wr : Sink;
  buf : list byte;
  size : nat;
  werr : option error
}.

Definition Buffered (b : Writer) : nat := length (buf b).
Definition Available (b : Writer) : nat := (size b - length (buf b))%nat.

Definition isNil (e : option error) : bool :=
  match e with None => true | Some _ => false end.

(** [Flush]: hands the buffered bytes to the sink; what a failing sink did
    not take stays buffered and the error sticks. *)
Definition Flush (b : Writer) : Writer * option error :=
  match werr b with
  | Some e => (b, Some e)
  | None =>
      if (Buffered b =? 0)%nat then (b, None)
      else
        let '(s, n, err) := sinkWrite (wr b) (buf b) in
        let err := if (n <? Buffered b)%nat && isNil err then Some ErrShortWrite
                   else err in
        match err with
        | Some e =>
            ({| wr := s; buf := skipn n (buf b); size := size b; werr := Some e |},
             Some e)
        | None => ({| wr := s; buf := []; size := size b; werr := None |}, None)
        end
  end.

(** The loop of [bufio.Writer.Write]: while [p] does not fit and no error
    has occurred, write [p] straight to the sink when nothing is buffered,
    otherwise fill the buffer and flush it. *)
Fixpoint writeLoop (fuel : nat) (b : Writer) (p : list byte) (nn : nat)
  : Writer * list byte * nat :=
  match fuel with
  | O => (b, p, nn)
  | S fuel' =>
      if (Available b <? length p)%nat && isNil (werr b) then
        if (Buffered b =? 0)%nat then
          let '(s, n, err) := sinkWrite (wr b) p in
          writeLoop fuel'
            {| wr := s; buf := buf b; size := size b; werr := err |}
            (skipn n p) (nn + n)
        else
          let n := Nat.min (Available b) (length p) in
          let b1 := {| wr := wr b; buf := buf b ++ firstn n p; size := size b;
                       werr := werr b |} in
          writeLoop fuel' (fst (Flush b1)) (skipn n p) (nn + n)
      else (b, p, nn)
  end.

(** [Write]: the loop leaves after at most two rounds ([writeLoop_fuel]),
    then the rest of [p] is copied into the buffer. *)
Definition Write (b : Writer) (p : list byte) : Writer * nat * option error :=
  let '(b1, p1, nn) := writeLoop 2 b p 0 in
  match werr b1 with
  | Some e => (b1, nn, Some e)
  | None =>
      let n := Nat.min (Available b1) (length p1) in
      ({| wr := wr b1; buf := buf b1 ++ firstn n p1; size := size b1;
          werr := werr b1 |}, (nn + n)%nat, None)
  end.

(** ** The encoder *)

Module Encoder.

Record t : Type := mk {
  CurrSeqID : byte;
  Dialects : DialectSlice;
  bw : Writer
}.

Definition setWriter (enc : t) (w : Writer) : t :=
  {| CurrSeqID := CurrSeqID enc; Dialects := Dialects enc; bw := w |}.

(** [writeAndCheck]: checks both the write and the written length. *)
Definition writeAndCheck (enc : t) (p : list byte) : t * option error :=
  let '(w, n, err) := Write (bw enc) p in
  if isNil err && negb (n =? length p)%nat then (setWriter enc w, Some ErrShortWrite)
  else (setWriter enc w, err).

(** [EncodePacket]: writes [p] to the writer. *)
Definition EncodePacket (enc : t) (p : Packet) : t * option error :=
  let crc := x25.New in
  let hdr := [startByte; byte.of_Z (Z.of_nat (length (Payload p)));
              CurrSeqID enc; SysID p; CompID p; MsgID p] in
  match writeAndCheck enc hdr with
  | (enc1, Some err) => (enc1, Some err)
  | (enc1, None) =>
      let crc := x25.Write crc (tl hdr) in
      match writeAndCheck enc1 (Payload p) with
      | (enc2, Some err) => (enc2, Some err)
      | (enc2, None) =>
          let crc := x25.Write crc (Payload p) in
          match findCrcX (Dialects enc2) (MsgID p) with
          | inr err => (enc2, Some err)
          | inl crcx =>
              let crc := x25.WriteByte crc crcx in
              let crcBytes := u16ToBytes (x25.Sum16 crc) in
              match writeAndCheck enc2 crcBytes with
              | (enc3, Some err) => (enc3, Some err)
              | (enc3, None) =>
                  let (w, err) := Flush (bw enc3) in
                  match err with
                  | None =>
                      ({| CurrSeqID := byte.of_Z (byte.unsigned (CurrSeqID enc3) + 1);
                          Dialects := Dialects enc3; bw := w |}, None)
                  | Some e => (setWriter enc3 w, Some e)
                  end
              end
          end
      end
  end.

(** [Encode] hands [EncodePacket] the packet a message packed itself into,
    stamped with the system and component ids; [pack] is the message's
    [Pack]. *)
Definition Encode (enc : t) (sysID compID : byte) (pack : Packet -> Packet + error)
  : t * option error :=
  let p0 := {| SeqID := Byte.x00; SysID := Byte.x00; CompID := Byte.x00;
               MsgID := Byte.x00; Payload := []; Checksum := 0 |} in
  match pack p0 with
  | inr err => (enc, Some err)
  | inl p =>
      EncodePacket enc
        {| SeqID := SeqID p; SysID := sysID; CompID := compID; MsgID := MsgID p;
           Payload := Payload p; Checksum := Checksum p |}
  end.

End Encoder.

(** [NewDecoder] and [NewEncoder]: a fresh counter, a registry holding the
    default dialect (handed over as [common]), and the stream wrapped in a
    buffer of [bufio]'s default size. *)
Definition defaultBufSize : nat := 4096.

Definition NewDecoder (common : Dialect) (r : Reader) : Decoder.t :=
  {| Decoder.CurrSeqID := Byte.x00; Decoder.Dialects := [common]; Decoder.br := r |}.

Definition NewEncoder (common : Dialect) (w : Sink) : Encoder.t :=
  {| Encoder.CurrSeqID := Byte.x00; Encoder.Dialects := [common];
     Encoder.bw := {| wr := w; buf := []; size := defaultBufSize; werr := None |} |}.

(** ** The frame, as the wire format lays it out *)

(** The 16-bit value of two bytes read little-endian. *)
Definition le16 (lo hi : byte) : Z :=
  Z.lor ((Z.shiftl (byte.unsigned hi) 8) mod 65536) (byte.unsigned lo).

(** The checksum of a frame: CRC over the five header bytes after the start
    marker, then the payload, then the crc-extra seed. *)
Definition checksumOf (hdr5 payload : list byte) (crcx : byte) : Z :=
  x25.Sum16 (x25.Write x25.New (hdr5 ++ payload ++ [crcx])).

(** The bytes of the frame for [p] under sequence id [seq] and seed [crcx];
    the packet's own [SeqID] and [Checksum] play no part. *)
Definition frameBytes (seq : byte) (p : Packet) (crcx : byte) : list byte :=
  let l := byte.of_Z (Z.of_nat (length (Payload p))) in
  [startByte; l; seq; SysID p; CompID p; MsgID p]
    ++ Payload p
    ++ u16ToBytes (checksumOf [l; seq; SysID p; CompID p; MsgID p] (Payload p) crcx).

Definition crcxOf (ds : DialectSlice) (msgid : byte) : byte :=
  match findCrcX ds msgid with
  | inl c => c
  | inr _ => Byte.x00
  end.

(** The frames of consecutive packets, numbered from [s] modulo 256. *)
Fixpoint framesFrom (ds : DialectSlice) (s : Z) (ps : list Packet) : list (list byte) :=
  match ps with
  | [] => []
  | p :: rest =>
      frameBytes (byte.of_Z s) p (crcxOf ds (MsgID p)) :: framesFrom ds (s + 1) rest
  end.

(** Consecutive calls of [EncodePacket] on one encoder, with their errors. *)
Fixpoint EncodeAll (enc : Encoder.t) (ps : list Packet) : Encoder.t * list (option error) :=
  match ps with
  | [] => (enc, [])
  | p :: rest =>
      let (enc1, err) := Encoder.EncodePacket enc p in
      let (enc2, errs) := EncodeAll enc1 rest in
      (enc2, err :: errs)
  end.

(** The packet a decoder hands back for a frame. *)
Definition headerPacket (seq sys comp msgid : byte) (payload : list byte) (sum : Z)
  : Packet :=
  {| SeqID := seq; SysID := sys; CompID := comp; MsgID := msgid;
     Payload := payload; Checksum := sum |}.

(** What the loop has achieved when it leaves: the guard is false; without
    an error every byte is in the sink, in the buffer or still in [p], in
    order; an error means the sink's budget did not cover the bytes. *)
Definition loopDone (b : Writer) (p : list byte) (nn : nat)
           (b1 : Writer) (p1 : list byte) (n1 : nat) : Prop :=
  (Available b1 <? length p1)%nat && isNil (werr b1) = false
  /\ size b1 = size b
  /\ (n1 + length p1 = nn + length p)%nat
  /\ match werr b1 with
     | None =>
         out (wr b1) ++ buf b1 ++ p1 = out (wr b) ++ buf b ++ p
         /\ (budget (wr b1) + length (out (wr b1))
             = budget (wr b) + length (out (wr b)))%nat
     | Some _ => (budget (wr b) < length (buf b) + length p)%nat
     end.

(** The writer is healthy and the sink has room for what is buffered and
    [k] bytes more. *)
Definition fits (b : Writer) (k : nat) : Prop :=
  werr b = None /\ (length (buf b) + k <= budget (wr b))%nat.


(** ** Sample data

    A dialect that defines message ids 0 and 1, a heartbeat-like packet with
    an empty payload, a packet with an unregistered id, and a packet whose
    payload has 256 bytes. *)

Definition sampleDialect : Dialect :=
  {| Name := "sample"; crcExtras := [(Byte.x00, Byte.x32); (Byte.x01, Byte.x7c)] |}.

Definition samplePacket : Packet :=
  {| SeqID := Byte.x2a; SysID := Byte.x01; CompID := Byte.x01; MsgID := Byte.x00;
     Payload := []; Checksum := 0 |}.

Definition dataPacket : Packet :=
  {| SeqID := Byte.x09; SysID := Byte.x03; CompID := Byte.x04; MsgID := Byte.x01;
     Payload := [Byte.x10; Byte.x20; Byte.xfe]; Checksum := 7 |}.

Definition unknownPacket : Packet :=
  {| SeqID := Byte.x00; SysID := Byte.x01; CompID := Byte.x01; MsgID := Byte.x07;
     Payload := [Byte.xaa]; Checksum := 0 |}.


Definition sampleSink : Sink := {| out := []; budget := 1000 |}.

Definition sampleEncoder : Encoder.t := NewEncoder sampleDialect sampleSink.

(** An encoder over a 16-byte buffer ([bufio.NewWriterSize]), and a packet
    with an unregistered id whose frame does not fit that buffer. *)
Definition smallEncoder : Encoder.t :=
  {| Encoder.CurrSeqID := Byte.x00; Encoder.Dialects := [sampleDialect];
     Encoder.bw := {| wr := sampleSink; buf := []; size := 16; werr := None |} |}.

Definition unknownBigPacket : Packet :=
  {| SeqID := Byte.x00; SysID := Byte.x01; CompID := Byte.x01; MsgID := Byte.x07;
     Payload := repeat Byte.xaa 20; Checksum := 0 |}.

(** The ASCII digits 1 to 9, the usual test vector of a CRC. *)
Definition checkInput : list byte :=
  [Byte.x31; Byte.x32; Byte.x33; Byte.x34; Byte.x35; Byte.x36; Byte.x37; Byte.x38;
   Byte.x39].

(** An encoder whose counter is about to wrap. *)
Definition wrapEncoder : Encoder.t :=
  {| Encoder.CurrSeqID := Byte.xff; Encoder.Dialects := [sampleDialect];
     Encoder.bw := Encoder.bw sampleEncoder |}.

Definition sampleDecoder (stream : list byte) : Decoder.t :=
  NewDecoder sampleDialect {| pending := stream; fail := EOF |}.

(** The frame of [samplePacket] under sequence id 0. *)
Definition sampleFrame : list byte :=
  [Byte.xfe; Byte.x00; Byte.x00; Byte.x01; Byte.x01; Byte.x00; Byte.x86; Byte.x5c].

(** A datagram whose header declares 200 payload bytes while only 50 bytes
    follow the header. *)
Definition truncatedBuffer : Slice.t :=
  Slice.of_list ([Byte.xfe; Byte.xc8; Byte.x00; Byte.x01; Byte.x01; Byte.x00]
                   ++ repeat Byte.x00 50).

(** ** Runs of the decoder *)

(** [n] consecutive calls of [Decode] on one decoder, with the packet and
    the error of each call. *)
Fixpoint DecodeN (n : nat) (dec : Decoder.t)
  : outcome (Decoder.t * list (option Packet * option error)) :=
  match n with
  | O => Done (dec, [])
  | S n' =>
      r <- Decoder.Decode dec ;;
      rs <- DecodeN n' (fst (fst r)) ;;
      Done (fst rs, (snd (fst r), snd r) :: snd rs)
  end.

(** The packet a decoder hands back for the frame of [p] sent under
    sequence id [seq] and seed [crcx]. *)
Definition received (seq : byte) (p : Packet) (crcx : byte) : Packet :=
  {| SeqID := seq; SysID := SysID p; CompID := CompID p; MsgID := MsgID p;
     Payload := Payload p;
     Checksum := checksumOf [byte.of_Z (Z.of_nat (length (Payload p))); seq;
                             SysID p; CompID p; MsgID p] (Payload p) crcx |}.

Fixpoint receivedFrom (ds : DialectSlice) (s : Z) (ps : list Packet)
  : list (option Packet * option error) :=
  match ps with
  | [] => []
  | p :: rest =>
      (Some (received (byte.of_Z s) p (crcxOf ds (MsgID p))), None)
        :: receivedFrom ds (s + 1) rest
  end.

(** The zero [Packet] that [Encode] hands to a message's [Pack]. *)
Definition zeroPacket : Packet :=
  {| SeqID := Byte.x00; SysID := Byte.x00; CompID := Byte.x00; MsgID := Byte.x00;
     Payload := []; Checksum := 0 |}.

(** A [Pack] that fills in message id 1 and three payload bytes (and ids of
    its own, which [Encode] overwrites), and one that fails. *)
Definition samplePack (p : Packet) : Packet + error :=
  inl {| SeqID := SeqID p; SysID := Byte.x63; CompID := Byte.x63; MsgID := Byte.x01;
         Payload := [Byte.x10; Byte.x20; Byte.xfe]; Checksum := Checksum p |}.

Definition failingPack (p : Packet) : Packet + error := inr ErrIO.

(** An encoder whose sink takes three more bytes. *)
Definition tightEncoder : Encoder.t :=
  NewEncoder sampleDialect {| out := []; budget := 3 |}.

(** The error of an [io.ReadFull] that found only [part] before the source
    failed with [e]. *)
Definition shortReadError (part : list byte) (e : error) : error :=
  match part, e with
  | _ :: _, EOF => ErrUnexpectedEOF
  | _, _ => e
  end.

(** * Properties *)

(** ** Bytes and 16-bit values *)

Lemma byte_unsigned_of_nat (n : nat) :
  (n <= 255)%nat -> byte.unsigned (byte.of_Z (Z.of_nat n)) = Z.of_nat n.
Proof.
  intros Hn. rewrite byte.unsigned_of_Z. unfold byte.wrap.
  apply Z.mod_small. lia.
Qed.

Lemma byte_eqb_refl (b : byte) : Byte.eqb b b = true.
Proof. now apply Byte.byte_dec_lb. Qed.

Lemma byte_eqb_neq (a b : byte) : a <> b -> Byte.eqb a b = false.
Proof.
  intros Hab. destruct (Byte.eqb a b) eqn:E; [|reflexivity].
  now apply Byte.byte_dec_bl in E.
Qed.

Lemma land_shiftl8_byte (h l : Z) :
  0 <= h -> 0 <= l < 256 -> Z.land (Z.shiftl h 8) l = 0.
Proof.
  intros Hh Hl. apply Z.bits_inj'. intros n Hn.
  rewrite Z.land_spec, Z.bits_0.
  destruct (Z.ltb_spec n 8) as [Hlt|Hge].
  - rewrite Z.shiftl_spec_low by assumption. reflexivity.
  - assert (Hb : Z.testbit l n = false).
    { destruct (Z.eq_dec l 0) as [->|Hne]; [apply Z.bits_0|].
      apply Z.bits_above_log2; [lia|].
      assert (Z.log2 l < 8) by (apply Z.log2_lt_pow2; [lia|change (2 ^ 8) with 256; lia]). lia. }
    rewrite Hb. apply andb_false_r.
Qed.

Lemma le16_add (lo hi : byte) :
  le16 lo hi = byte.unsigned lo + 256 * byte.unsigned hi.
Proof.
  unfold le16.
  pose proof (byte.unsigned_range lo) as Hlo.
  pose proof (byte.unsigned_range hi) as Hhi.
  change (2 ^ 8) with 256 in *.
  rewrite Z.shiftl_mul_pow2 by lia. change (2 ^ 8) with 256.
  rewrite Z.mod_small by lia.
  rewrite <- Z.lxor_lor, <- Z.add_nocarry_lxor; try lia;
    replace (byte.unsigned hi * 256) with (Z.shiftl (byte.unsigned hi) 8)
      by (rewrite Z.shiftl_mul_pow2 by lia; reflexivity);
    apply land_shiftl8_byte; lia.
Qed.

Lemma le16_range (lo hi : byte) : 0 <= le16 lo hi < 65536.
Proof.
  rewrite le16_add.
  pose proof (byte.unsigned_range lo). pose proof (byte.unsigned_range hi).
  change (2 ^ 8) with 256 in *. lia.
Qed.

(** [u16ToBytes] puts the low byte first, and a little-endian read of the
    two bytes gives the 16-bit value back. *)
Lemma u16ToBytes_le16 (v : Z) :
  0 <= v < 65536 ->
  exists lo hi, u16ToBytes v = [lo; hi]
                /\ byte.unsigned lo = v mod 256
                /\ byte.unsigned hi = v / 256
                /\ le16 lo hi = v.
Proof.
  intros Hv. unfold u16ToBytes. eexists _, _. split; [reflexivity|].
  assert (Hlo : byte.unsigned (byte.of_Z (Z.land v 0xff)) = v mod 256).
  { rewrite byte.unsigned_of_Z. unfold byte.wrap.
    change 0xff with (Z.ones 8). rewrite Z.land_ones by lia.
    change (2 ^ 8) with 256. now rewrite Z.mod_mod by lia. }
  assert (Hhi : byte.unsigned (byte.of_Z (Z.shiftr v 8)) = v / 256).
  { rewrite byte.unsigned_of_Z. unfold byte.wrap.
    rewrite Z.shiftr_div_pow2 by lia. change (2 ^ 8) with 256.
    apply Z.mod_small.
    split; [apply Z.div_pos|apply Z.div_lt_upper_bound]; lia. }
  repeat split; try assumption.
  rewrite le16_add, Hlo, Hhi.
  pose proof (Z.div_mod v 256 ltac:(lia)). lia.
Qed.

(** ** The checksum register stays a 16-bit value *)

Lemma lxor_u16 (a b : Z) :
  0 <= a < 65536 -> 0 <= b < 65536 -> 0 <= Z.lxor a b < 65536.
Proof.
  intros Ha Hb. split; [apply Z.lxor_nonneg; lia|].
  destruct (Z.eq_dec (Z.lxor a b) 0) as [->|Hne]; [lia|].
  assert (Hpos : 0 < Z.lxor a b) by (pose proof (proj2 (Z.lxor_nonneg a b)); lia).
  change 65536 with (2 ^ 16). apply Z.log2_lt_pow2; [assumption|].
  pose proof (Z.log2_lxor a b ltac:(lia) ltac:(lia)) as Hl.
  assert (Z.log2 a < 16).
  { destruct (Z.eq_dec a 0) as [->|]; [cbn; lia|].
    apply Z.log2_lt_pow2; [lia|change (2 ^ 16) with 65536; lia]. }
  assert (Z.log2 b < 16).
  { destruct (Z.eq_dec b 0) as [->|]; [cbn; lia|].
    apply Z.log2_lt_pow2; [lia|change (2 ^ 16) with 65536; lia]. }
  lia.
Qed.

Lemma shift1_u16 (c : Z) : 0 <= c < 65536 -> 0 <= x25.shift1 c < 65536.
Proof.
  intros Hc. unfold x25.shift1.
  assert (Hs : 0 <= Z.shiftr c 1 < 65536).
  { rewrite Z.shiftr_div_pow2 by lia. change (2 ^ 1) with 2.
    split; [apply Z.div_pos; lia|apply Z.div_lt_upper_bound; lia]. }
  destruct (Z.odd c); [apply lxor_u16; [assumption|lia]|assumption].
Qed.

Lemma table_u16 (i : Z) : 0 <= i < 65536 -> 0 <= x25.table i < 65536.
Proof.
  intros Hi. unfold x25.table.
  generalize 8%nat as n. induction n as [|n IH]; cbn [Nat.iter]; [assumption|].
  now apply shift1_u16.
Qed.

Lemma WriteByte_u16 (x : x25.X25) (b : byte) :
  0 <= x25.crc x < 65536 -> 0 <= x25.crc (x25.WriteByte x b) < 65536.
Proof.
  intros Hx. unfold x25.WriteByte. cbn [x25.crc].
  apply lxor_u16.
  - rewrite Z.shiftr_div_pow2 by lia. change (2 ^ 8) with 256.
    split; [apply Z.div_pos; lia|apply Z.div_lt_upper_bound; lia].
  - apply table_u16. change 0xff with (Z.ones 8). rewrite Z.land_ones by lia.
    pose proof (Z.mod_pos_bound (Z.lxor (x25.crc x) (byte.unsigned b)) (2 ^ 8) eq_refl).
    change (2 ^ 8) with 256 in *. lia.
Qed.

Lemma Write_u16 (p : list byte) (x : x25.X25) :
  0 <= x25.crc x < 65536 -> 0 <= x25.crc (x25.Write x p) < 65536.
Proof.
  revert x. unfold x25.Write.
  induction p as [|b p IH]; intros x Hx; cbn [fold_left]; [assumption|].
  apply IH. now apply WriteByte_u16.
Qed.

Lemma checksumOf_u16 (hdr5 payload : list byte) (crcx : byte) :
  0 <= checksumOf hdr5 payload crcx < 65536.
Proof.
  unfold checksumOf, x25.Sum16. apply Write_u16. cbn. lia.
Qed.

(** The register after the test vector is 0x6F91, the check value of the
    CRC with reflected polynomial 0x1021, initial value 0xFFFF and no final
    complement. *)
Example x25_check_value : x25.Sum16 (x25.Write x25.New checkInput) = 0x6f91.
Proof. vm_compute. reflexivity. Qed.

(** The checksum is the register after header, payload and seed, absorbed in
    that order. *)
Lemma checksumOf_steps (hdr5 payload : list byte) (crcx : byte) :
  x25.Sum16 (x25.WriteByte (x25.Write (x25.Write x25.New hdr5) payload) crcx)
  = checksumOf hdr5 payload crcx.
Proof.
  unfold checksumOf, x25.Write. now rewrite !fold_left_app.
Qed.

(** ** Slices *)

Lemma range_split (s : Slice.t) (pre mid post : list byte) :
  Slice.vis s ++ Slice.spare s = pre ++ mid ++ post ->
  Slice.range s (length pre) (length pre + length mid)
  = Done {| Slice.vis := mid; Slice.spare := post |}.
Proof.
  intros Harr.
  assert (Hcap : Slice.cap s = (length pre + length mid + length post)%nat).
  { unfold Slice.cap. rewrite <- length_app, Harr, !length_app. lia. }
  unfold Slice.range. rewrite Hcap, Harr.
  replace ((length pre <=? length pre + length mid)%nat) with true
    by (symmetry; apply Nat.leb_le; lia).
  replace ((length pre + length mid <=? length pre + length mid + length post)%nat)
    with true by (symmetry; apply Nat.leb_le; lia).
  cbn [andb]. f_equal. f_equal.
  - rewrite skipn_app, skipn_all, Nat.sub_diag. cbn [skipn app].
    replace (length pre + length mid - length pre)%nat with (length mid) by lia.
    rewrite firstn_app, firstn_all, Nat.sub_diag. cbn. apply app_nil_r.
  - rewrite app_assoc, skipn_app, <- length_app, skipn_all, Nat.sub_diag.
    reflexivity.
Qed.

Lemma from_split (s : Slice.t) (pre mid : list byte) :
  Slice.vis s = pre ++ mid ->
  Slice.from s (length pre)
  = Done {| Slice.vis := mid; Slice.spare := Slice.spare s |}.
Proof.
  intros Hvis. unfold Slice.from, Slice.len.
  rewrite Hvis, length_app. apply range_split.
  rewrite Hvis. now rewrite <- app_assoc.
Qed.

(** Re-slicing beyond the capacity panics. *)
Lemma range_beyond_cap (s : Slice.t) (lo hi : nat) :
  (Slice.cap s < hi)%nat -> Slice.range s lo hi = Panic.
Proof.
  intros Hhi. unfold Slice.range.
  replace ((hi <=? Slice.cap s)%nat) with false
    by (symmetry; apply Nat.leb_gt; lia).
  now rewrite andb_false_r.
Qed.

(** ** Synchronisation *)

(** [seekStart] is the loop of [Decode] over [ReadByte]. *)
Lemma seekStart_ReadByte (r : Reader) :
  seekStart (pending r) (fail r)
  = match ReadByte r with
    | (r', inr err) => ({| pending := []; fail := fail r' |}, Some err)
    | (r', inl c) =>
        if Byte.eqb c startByte then (r', None)
        else seekStart (pending r') (fail r')
    end.
Proof.
  unfold ReadByte. destruct (pending r) as [|c rest]; reflexivity.
Qed.

Lemma seekStart_garbage (garbage rest : list byte) (e : error) :
  Forall (fun c => c <> startByte) garbage ->
  seekStart (garbage ++ startByte :: rest) e
  = ({| pending := rest; fail := e |}, None).
Proof.
  induction 1 as [|c g Hc _ IH]; cbn [app seekStart].
  - now rewrite byte_eqb_refl.
  - now rewrite (byte_eqb_neq _ _ Hc).
Qed.

Lemma seekStart_no_start (l : list byte) (e : error) :
  Forall (fun c => c <> startByte) l ->
  seekStart l e = ({| pending := []; fail := e |}, Some e).
Proof.
  induction 1 as [|c g Hc _ IH]; cbn [seekStart]; [reflexivity|].
  now rewrite (byte_eqb_neq _ _ Hc).
Qed.

(** ** What [Decode] does on a stream that holds a whole frame *)


Lemma Decode_frame (dec : Decoder.t) (garbage payload rest : list byte)
      (l seq sys comp msgid c0 c1 : byte) (e : error) :
  Forall (fun c => c <> startByte) garbage ->
  length payload = Z.to_nat (byte.unsigned l) ->
  Decoder.br dec
  = {| pending := garbage ++ startByte :: l :: seq :: sys :: comp :: msgid
                    :: payload ++ c0 :: c1 :: rest;
       fail := e |} ->
  Decoder.Decode dec
  = let r := {| pending := rest; fail := e |} in
    match findCrcX (Decoder.Dialects dec) msgid with
    | inr err =>
        Done (Decoder.setReader dec r,
              Some (headerPacket seq sys comp msgid payload 0), Some err)
    | inl crcx =>
        let p := headerPacket seq sys comp msgid payload (le16 c0 c1) in
        if le16 c0 c1 =? checksumOf [l; seq; sys; comp; msgid] payload crcx then
          Done (Decoder.setSeqID (Decoder.setReader dec r) seq, Some p, None)
        else
          Done (Decoder.setReader dec r, Some p, Some ErrCrcFail)
    end.
Proof.
  intros Hg Hlen Hbr. unfold Decoder.Decode. rewrite Hbr. cbn [pending fail].
  rewrite seekStart_garbage by assumption.
  unfold ReadFull at 1. cbn [pending fail length Nat.leb firstn skipn].
  cbn [newPacketFromBytes Slice.of_list Slice.index Slice.vis nth_error bind fst snd].
  rewrite <- Hlen.
  unfold ReadFull, numChecksumBytes. cbn [pending fail].
  replace ((length payload + 2
            <=? length (payload ++ c0 :: c1 :: rest))%nat) with true
    by (symmetry; apply Nat.leb_le; rewrite length_app; cbn; lia).
  replace (firstn (length payload + 2) (payload ++ c0 :: c1 :: rest))
    with (payload ++ [c0; c1])
    by (rewrite firstn_app, firstn_all2 by lia;
        replace (length payload + 2 - length payload)%nat with 2%nat by lia;
        reflexivity).
  replace (skipn (length payload + 2) (payload ++ c0 :: c1 :: rest))
    with rest
    by (rewrite skipn_app, skipn_all2 by lia;
        replace (length payload + 2 - length payload)%nat with 2%nat by lia;
        reflexivity).
  pose proof (range_split (Slice.of_list (payload ++ [c0; c1])) [] payload [c0; c1])
    as Hr.
  cbn [length Nat.add app Slice.of_list Slice.vis Slice.spare] in Hr.
  rewrite Hr by now rewrite app_nil_r.
  cbn [bind Slice.vis setPayload Payload MsgID SeqID SysID CompID Checksum].
  destruct (findCrcX (Decoder.Dialects dec) msgid) as [crcx|err]; [|reflexivity].
  rewrite (from_split (Slice.of_list (payload ++ [c0; c1])) payload [c0; c1])
    by reflexivity.
  cbn [bind bytesToU16 Slice.index Slice.vis nth_error setChecksum Checksum
       SeqID SysID CompID MsgID Payload].
  fold (le16 c0 c1).
  rewrite (checksumOf_steps [l; seq; sys; comp; msgid] payload crcx).
  unfold headerPacket. destruct (le16 c0 c1 =? _); reflexivity.
Qed.

(** ** What [DecodeBytes] does on a buffer that holds a whole frame *)

Lemma DecodeBytes_frame (dec : Decoder.t) (payload trailing spare : list byte)
      (l seq sys comp msgid c0 c1 : byte) :
  length payload = Z.to_nat (byte.unsigned l) ->
  Decoder.DecodeBytes dec
    {| Slice.vis := startByte :: l :: seq :: sys :: comp :: msgid
                      :: payload ++ c0 :: c1 :: trailing;
       Slice.spare := spare |}
  = match findCrcX (Decoder.Dialects dec) msgid with
    | inr err =>
        Done (dec, Some (headerPacket seq sys comp msgid payload 0), Some err)
    | inl crcx =>
        let p := headerPacket seq sys comp msgid payload (le16 c0 c1) in
        if le16 c0 c1 =? checksumOf [l; seq; sys; comp; msgid] payload crcx then
          Done (Decoder.setSeqID dec seq, Some p, None)
        else
          Done (dec, Some p, Some ErrCrcFail)
    end.
Proof.
  intros Hlen.
  set (hdr := [startByte; l; seq; sys; comp; msgid]).
  set (b := {| Slice.vis := _; Slice.spare := spare |}).
  assert (Hvis : Slice.vis b = hdr ++ payload ++ c0 :: c1 :: trailing) by reflexivity.
  unfold Decoder.DecodeBytes.
  replace ((Slice.len b <? hdrLen)%nat) with false by reflexivity.
  replace (Slice.index b 0) with (Done startByte) by reflexivity.
  cbn [bind]. rewrite byte_eqb_refl. cbn [negb].
  pose proof (from_split b [startByte]
                (l :: seq :: sys :: comp :: msgid :: payload ++ c0 :: c1 :: trailing)
                eq_refl) as H1.
  cbn [length] in H1. rewrite H1. clear H1.
  cbn [bind newPacketFromBytes Slice.index Slice.vis nth_error fst snd].
  rewrite <- Hlen.
  pose proof (range_split b hdr payload ((c0 :: c1 :: trailing) ++ spare)) as H2.
  change (length hdr) with hdrLen in H2.
  rewrite H2 by (rewrite Hvis; cbn [Slice.spare b]; now rewrite <- !app_assoc).
  clear H2. cbn [bind Slice.vis setPayload MsgID].
  pose proof (range_split b [startByte] (l :: seq :: sys :: comp :: msgid :: payload)
                ((c0 :: c1 :: trailing) ++ spare)) as H3.
  replace (length [startByte] + length (l :: seq :: sys :: comp :: msgid :: payload))%nat
    with (hdrLen + length payload)%nat in H3 by (cbn; lia).
  change (length [startByte]) with 1%nat in H3.
  rewrite H3 by (rewrite Hvis; cbn [Slice.spare b hdr app]; now rewrite <- !app_assoc).
  clear H3. cbn [bind Slice.vis].
  destruct (findCrcX (Decoder.Dialects dec) msgid) as [crcx|err]; [|reflexivity].
  pose proof (from_split b (hdr ++ payload) (c0 :: c1 :: trailing)) as H4.
  rewrite length_app in H4. change (length hdr) with hdrLen in H4.
  rewrite H4 by (rewrite Hvis; now rewrite <- app_assoc).
  clear H4.
  cbn [bind bytesToU16 Slice.index Slice.vis nth_error setChecksum Checksum
       SeqID SysID CompID MsgID Payload].
  fold (le16 c0 c1).
  change (x25.Write x25.New (l :: seq :: sys :: comp :: msgid :: payload))
    with (x25.Write (x25.Write x25.New [l; seq; sys; comp; msgid]) payload).
  rewrite checksumOf_steps.
  unfold headerPacket. destruct (le16 c0 c1 =? _); reflexivity.
Qed.

(** The guard of [DecodeBytes]: a buffer shorter than the header, or one
    that does not begin with the start byte, is an invalid header. *)
Lemma DecodeBytes_short (dec : Decoder.t) (b : Slice.t) :
  (Slice.len b < hdrLen)%nat ->
  Decoder.DecodeBytes dec b = Done (dec, None, Some ErrInvalidHeader).
Proof.
  intros Hlen. unfold Decoder.DecodeBytes.
  replace ((Slice.len b <? hdrLen)%nat) with true
    by (symmetry; now apply Nat.ltb_lt).
  reflexivity.
Qed.

Lemma DecodeBytes_no_start (dec : Decoder.t) (c : byte) (rest spare : list byte) :
  c <> startByte ->
  Decoder.DecodeBytes dec {| Slice.vis := c :: rest; Slice.spare := spare |}
  = Done (dec, None, Some ErrInvalidHeader).
Proof.
  intros Hc. unfold Decoder.DecodeBytes.
  destruct (Slice.len _ <? hdrLen)%nat; [reflexivity|].
  cbn [Slice.index Slice.vis nth_error bind].
  now rewrite (byte_eqb_neq _ _ Hc).
Qed.

(** A header that declares more payload than the backing array holds makes
    the first re-slicing of [DecodeBytes] panic. *)
Lemma DecodeBytes_beyond_cap (dec : Decoder.t) (l seq sys comp msgid : byte)
      (rest spare : list byte) :
  (6 + length rest + length spare < 6 + Z.to_nat (byte.unsigned l))%nat ->
  Decoder.DecodeBytes dec
    {| Slice.vis := startByte :: l :: seq :: sys :: comp :: msgid :: rest;
       Slice.spare := spare |}
  = Panic.
Proof.
  intros Hcap.
  set (b := {| Slice.vis := _; Slice.spare := spare |}).
  unfold Decoder.DecodeBytes.
  replace ((Slice.len b <? hdrLen)%nat) with false by reflexivity.
  replace (Slice.index b 0) with (Done startByte) by reflexivity.
  cbn [bind]. rewrite byte_eqb_refl. cbn [negb].
  pose proof (from_split b [startByte] (l :: seq :: sys :: comp :: msgid :: rest)
                eq_refl) as H1.
  cbn [length] in H1. rewrite H1. clear H1.
  cbn [bind newPacketFromBytes Slice.index Slice.vis nth_error fst snd].
  rewrite range_beyond_cap; [reflexivity|].
  unfold Slice.cap, hdrLen. cbn [Slice.vis Slice.spare b length]. lia.
Qed.

(** ** The buffered writer *)

Lemma sinkWrite_ok (s : Sink) (p : list byte) :
  (length p <= budget s)%nat ->
  sinkWrite s p
  = ({| out := out s ++ p; budget := budget s - length p |}, length p, None).
Proof.
  intros Hp. unfold sinkWrite.
  now replace ((length p <=? budget s)%nat) with true
    by (symmetry; now apply Nat.leb_le).
Qed.

(** A sink call that reports no error took every byte. *)
Lemma sinkWrite_nil (s s' : Sink) (p : list byte) (n : nat) :
  sinkWrite s p = (s', n, None) ->
  n = length p /\ out s' = out s ++ p /\ (length p <= budget s)%nat
  /\ budget s' = (budget s - length p)%nat.
Proof.
  unfold sinkWrite. destruct (Nat.leb_spec (length p) (budget s)) as [Hle|Hgt];
    intros [= <- <-]; cbn; auto.
Qed.

(** [Flush] without error: the buffered bytes reached the sink, in order. *)
Lemma Flush_nil (b b' : Writer) :
  Flush b = (b', None) ->
  werr b = None /\ werr b' = None /\ buf b' = [] /\ size b' = size b
  /\ out (wr b') = out (wr b) ++ buf b
  /\ (length (buf b) <= budget (wr b))%nat
  /\ budget (wr b') = (budget (wr b) - length (buf b))%nat.
Proof.
  unfold Flush, Buffered. destruct (werr b) as [e|] eqn:He; [discriminate|].
  destruct (Nat.eqb_spec (length (buf b)) 0) as [H0|Hn].
  - intros [= <-]. apply length_zero_iff_nil in H0. rewrite H0, app_nil_r.
    cbn. repeat split; auto; lia.
  - destruct (sinkWrite (wr b) (buf b)) as [[s n] err] eqn:Hs.
    destruct err as [e|].
    + rewrite andb_false_r. discriminate.
    + apply sinkWrite_nil in Hs. destruct Hs as (-> & Hout & Hle & Hb).
      rewrite Nat.ltb_irrefl. cbn [andb]. intros [= <-]. cbn. auto 10.
Qed.

(** [Flush] never reports success while keeping a byte or an error. *)
Lemma Flush_err (b b' : Writer) (e : error) :
  Flush b = (b', Some e) -> werr b' = Some e.
Proof.
  unfold Flush, Buffered. destruct (werr b) as [e0|] eqn:He.
  - intros [= <- <-]. assumption.
  - destruct (length (buf b) =? 0)%nat; [discriminate|].
    destruct (sinkWrite (wr b) (buf b)) as [[s n] err].
    destruct ((n <? length (buf b))%nat && isNil err); [|destruct err];
      intros [= <- <-]; reflexivity.
Qed.

(** With nothing buffered the loop writes [p] straight to the sink and is
    done after that round, whatever fuel is left. *)
Lemma writeLoop_direct (j : nat) (b : Writer) (p : list byte) (nn : nat) :
  Buffered b = 0%nat ->
  writeLoop (S j) b p nn = writeLoop 1 b p nn.
Proof.
  intros Hb. cbn [writeLoop]. rewrite Hb. cbn [Nat.eqb].
  destruct ((Available b <? length p)%nat && isNil (werr b)); [|reflexivity].
  destruct (sinkWrite (wr b) p) as [[s n] err] eqn:Hs.
  destruct j as [|j]; [reflexivity|]. cbn [writeLoop werr].
  destruct err as [e|]; [now rewrite andb_false_r|].
  apply sinkWrite_nil in Hs. destruct Hs as (-> & _).
  rewrite skipn_all. reflexivity.
Qed.

(** Two rounds are all the loop of [Write] ever makes: more fuel changes
    nothing. *)
Lemma writeLoop_fuel (k : nat) (b : Writer) (p : list byte) (nn : nat) :
  writeLoop (2 + k) b p nn = writeLoop 2 b p nn.
Proof.
  change (2 + k)%nat with (S (S k)).
  cbn [writeLoop].
  destruct ((Available b <? length p)%nat && isNil (werr b)) eqn:Hc; [|reflexivity].
  destruct (Nat.eqb_spec (Buffered b) 0) as [Hb|Hb].
  - destruct (sinkWrite (wr b) p) as [[s n] err] eqn:Hs.
    change (writeLoop (S k) ?x ?y ?z = _) with (writeLoop (S k) x y z = writeLoop 1 x y z).
    apply writeLoop_direct. exact Hb.
  - set (b1 := {| wr := wr b; buf := _; size := size b; werr := werr b |}).
    destruct (Flush b1) as [b2 [e|]] eqn:Hf; cbn [fst].
    + apply Flush_err in Hf. cbn [writeLoop]. rewrite Hf. cbn [isNil].
      now rewrite !andb_false_r.
    + apply Flush_nil in Hf. destruct Hf as (_ & _ & Hbuf & _).
      apply writeLoop_direct. unfold Buffered. now rewrite Hbuf.
Qed.


Lemma writeLoop1_direct_done (b : Writer) (p : list byte) (nn : nat) :
  Buffered b = 0%nat -> werr b = None ->
  forall b1 p1 n1, writeLoop 1 b p nn = (b1, p1, n1) -> loopDone b p nn b1 p1 n1.
Proof.
  intros Hb He b1 p1 n1. cbn [writeLoop]. rewrite Hb. cbn [Nat.eqb].
  destruct ((Available b <? length p)%nat && isNil (werr b)) eqn:Hc.
  - unfold sinkWrite.
    destruct (Nat.leb_spec (length p) (budget (wr b))) as [Hle|Hgt];
      intros [= <- <- <-]; unfold loopDone; cbn [werr wr buf size out budget].
    + rewrite skipn_all. cbn [length]. rewrite length_app.
      apply length_zero_iff_nil in Hb. rewrite Hb.
      repeat split; try lia; try reflexivity.
      cbn [app]. now rewrite !app_nil_r.
    + rewrite andb_false_r, length_skipn. repeat split; lia.
  - intros [= <- <- <-]. unfold loopDone. rewrite He in Hc |- *. auto.
Qed.

Lemma writeLoop2_done (b : Writer) (p : list byte) (nn : nat) :
  werr b = None ->
  forall b1 p1 n1, writeLoop 2 b p nn = (b1, p1, n1) -> loopDone b p nn b1 p1 n1.
Proof.
  intros He b1 p1 n1.
  destruct (Nat.eqb_spec (Buffered b) 0) as [Hb|Hb].
  - rewrite writeLoop_direct by assumption. now apply writeLoop1_direct_done.
  - cbn [writeLoop].
    destruct ((Available b <? length p)%nat && isNil (werr b)) eqn:Hc.
    + destruct (Nat.eqb_spec (Buffered b) 0) as [Hb'|_]; [contradiction|].
      set (n := Nat.min (Available b) (length p)).
      set (bf := {| wr := wr b; buf := buf b ++ firstn n p; size := size b;
                    werr := werr b |}).
      destruct (Flush bf) as [b2 [e|]] eqn:Hf; cbn [fst].
      * pose proof (Flush_err _ _ _ Hf) as He2.
        rewrite He2. cbn [isNil]. rewrite andb_false_r.
        intros [= <- <- <-]. unfold loopDone. rewrite He2, andb_false_r.
        assert (Hsz : size b2 = size b).
        { revert Hf. unfold Flush. cbn [werr bf]. rewrite He.
          destruct (Buffered bf =? 0)%nat; [discriminate|].
          destruct (sinkWrite (wr bf) (buf bf)) as [[s m] err].
          destruct ((m <? Buffered bf)%nat && isNil err); [|destruct err];
            intros [= <- _]; reflexivity. }
        assert (Hbud : (budget (wr b) < length (buf b) + length p)%nat).
        { revert Hf. unfold Flush. cbn [werr bf]. rewrite He.
          destruct (Buffered bf =? 0)%nat; [discriminate|].
          unfold sinkWrite. cbn [wr buf bf].
          destruct (Nat.leb_spec (length (buf b ++ firstn n p)) (budget (wr b)))
            as [Hle|Hgt].
          - unfold Buffered. cbn [buf]. rewrite Nat.ltb_irrefl. discriminate.
          - intros _. rewrite length_app, length_firstn in Hgt. lia. }
        rewrite length_skipn. repeat split; try assumption.
        subst n. lia.
      * pose proof (Flush_nil _ _ Hf) as (_ & He2 & Hbuf & Hsz & Hout & Hle & Hbud).
        cbn [wr buf size bf] in Hsz, Hout, Hle, Hbud.
        intros Hl. apply writeLoop1_direct_done in Hl;
          [|unfold Buffered; now rewrite Hbuf|assumption].
        destruct Hl as (Hg & Hs1 & Hn1 & Hw). unfold loopDone.
        rewrite length_skipn in Hn1. rewrite length_app, length_firstn in Hle, Hbud.
        repeat split; [assumption|congruence|subst n; lia|].
        destruct (werr b1).
        -- rewrite Hbuf, length_skipn in Hw. cbn [length] in Hw. subst n. lia.
        -- destruct Hw as [Hst Hbg]. rewrite Hout, Hbuf in Hst. cbn [app] in Hst.
           split.
           ++ rewrite Hst, <- !app_assoc. f_equal. f_equal. apply firstn_skipn.
           ++ rewrite Hbg, Hbud, Hout, !length_app, length_firstn. lia.
    + intros [= <- <- <-]. unfold loopDone. rewrite He in Hc |- *. auto.
Qed.


(** [Write] without error: all of [p] was taken, and sink and buffer
    together hold the earlier bytes followed by [p]. *)
Lemma Write_nil (b b' : Writer) (p : list byte) (n : nat) :
  Write b p = (b', n, None) ->
  werr b = None /\ werr b' = None /\ n = length p /\ size b' = size b
  /\ out (wr b') ++ buf b' = out (wr b) ++ buf b ++ p
  /\ (budget (wr b') + length (out (wr b'))
      = budget (wr b) + length (out (wr b)))%nat.
Proof.
  unfold Write. destruct (werr b) as [e|] eqn:He.
  - cbn [writeLoop]. rewrite He. cbn [isNil]. rewrite andb_false_r, He.
    discriminate.
  - destruct (writeLoop 2 b p 0) as [[b1 p1] nn] eqn:Hl.
    apply writeLoop2_done in Hl; [|assumption].
    destruct Hl as (Hg & Hsz & Hn & Hw).
    destruct (werr b1) as [e|] eqn:He1; [discriminate|].
    cbn [isNil] in Hg. rewrite andb_true_r in Hg. apply Nat.ltb_ge in Hg.
    rewrite Nat.min_r by assumption. rewrite firstn_all.
    destruct Hw as [Hst Hbg].
    intros [= <- <-]. cbn [wr buf size werr].
    repeat split; try assumption; try lia.
Qed.

(** [Write] fails only when the sink's budget does not cover the bytes. *)
Lemma Write_err (b b' : Writer) (p : list byte) (n : nat) (e : error) :
  werr b = None ->
  Write b p = (b', n, Some e) ->
  (budget (wr b) < length (buf b) + length p)%nat.
Proof.
  intros He. unfold Write.
  destruct (writeLoop 2 b p 0) as [[b1 p1] nn] eqn:Hl.
  apply writeLoop2_done in Hl; [|assumption].
  destruct Hl as (_ & _ & _ & Hw).
  destruct (werr b1); [intros _; exact Hw|discriminate].
Qed.

Lemma Write_budget (b : Writer) (p : list byte) (k : nat) :
  fits b (length p + k) ->
  exists b', Write b p = (b', length p, None)
             /\ fits b' k /\ size b' = size b
             /\ out (wr b') ++ buf b' = out (wr b) ++ buf b ++ p.
Proof.
  intros [He Hb].
  destruct (Write b p) as [[b' n] [e|]] eqn:Hw.
  - apply Write_err in Hw; [lia|assumption].
  - pose proof (Write_nil _ _ _ _ Hw) as (_ & He' & -> & Hsz & Hst & Hbg).
    exists b'. repeat split; try assumption.
    apply (f_equal (@length byte)) in Hst. rewrite !length_app in Hst. lia.
Qed.

(** A [Write] that fits the free part of the buffer only queues its bytes:
    the sink is not touched. *)
Lemma Write_fits (b : Writer) (p : list byte) :
  werr b = None -> (length p <= Available b)%nat ->
  Write b p
  = ({| wr := wr b; buf := buf b ++ p; size := size b; werr := None |},
     length p, None).
Proof.
  intros He Hp. unfold Write. cbn [writeLoop].
  replace ((Available b <? length p)%nat) with false
    by (symmetry; now apply Nat.ltb_ge).
  cbn [andb]. rewrite He, Nat.min_r, firstn_all by assumption.
  reflexivity.
Qed.

(** ** The encoder *)

Lemma writeAndCheck_writer (enc : Encoder.t) (p : list byte) :
  exists w, fst (Encoder.writeAndCheck enc p) = Encoder.setWriter enc w.
Proof.
  unfold Encoder.writeAndCheck.
  destruct (Write (Encoder.bw enc) p) as [[w n] err].
  exists w. now destruct (isNil err && negb (n =? length p)%nat).
Qed.

Lemma writeAndCheck_nil (enc enc' : Encoder.t) (p : list byte) :
  Encoder.writeAndCheck enc p = (enc', None) ->
  exists w, enc' = Encoder.setWriter enc w
            /\ Write (Encoder.bw enc) p = (w, length p, None).
Proof.
  unfold Encoder.writeAndCheck.
  destruct (Write (Encoder.bw enc) p) as [[w n] err] eqn:Hw.
  destruct err as [e|]; cbn [isNil andb]; [discriminate|].
  apply Write_nil in Hw as Hn. destruct Hn as (_ & _ & -> & _).
  rewrite Nat.eqb_refl. cbn [negb]. intros [= <-]. now exists w.
Qed.

Lemma writeAndCheck_budget (enc : Encoder.t) (p : list byte) (k : nat) :
  fits (Encoder.bw enc) (length p + k) ->
  exists w, Encoder.writeAndCheck enc p = (Encoder.setWriter enc w, None)
            /\ fits w k.
Proof.
  intros Hf. destruct (Write_budget _ _ _ Hf) as (w & Hw & Hfw & _).
  exists w. unfold Encoder.writeAndCheck. rewrite Hw. cbn [isNil andb].
  now rewrite Nat.eqb_refl.
Qed.

(** A successful [EncodePacket]: the id is registered, the sink has received
    what was buffered before followed by the whole frame under the encoder's
    sequence id, nothing stays buffered, and the counter has advanced. *)
Lemma EncodePacket_nil (enc enc' : Encoder.t) (p : Packet) :
  Encoder.EncodePacket enc p = (enc', None) ->
  exists crcx,
    findCrcX (Encoder.Dialects enc) (MsgID p) = inl crcx
    /\ Encoder.CurrSeqID enc' = byte.of_Z (byte.unsigned (Encoder.CurrSeqID enc) + 1)
    /\ Encoder.Dialects enc' = Encoder.Dialects enc
    /\ buf (Encoder.bw enc') = []
    /\ werr (Encoder.bw enc') = None
    /\ size (Encoder.bw enc') = size (Encoder.bw enc)
    /\ out (wr (Encoder.bw enc'))
       = out (wr (Encoder.bw enc)) ++ buf (Encoder.bw enc)
           ++ frameBytes (Encoder.CurrSeqID enc) p crcx.
Proof.
  unfold Encoder.EncodePacket.
  set (l := byte.of_Z (Z.of_nat (length (Payload p)))).
  set (hdr := [startByte; l; Encoder.CurrSeqID enc; SysID p; CompID p; MsgID p]).
  destruct (Encoder.writeAndCheck enc hdr) as [enc1 [e|]] eqn:H1; [discriminate|].
  apply writeAndCheck_nil in H1. destruct H1 as (w1 & -> & H1).
  destruct (Encoder.writeAndCheck (Encoder.setWriter enc w1) (Payload p))
    as [enc2 [e|]] eqn:H2; [discriminate|].
  apply writeAndCheck_nil in H2. destruct H2 as (w2 & -> & H2).
  cbn [Encoder.setWriter Encoder.Dialects Encoder.bw Encoder.CurrSeqID] in *.
  destruct (findCrcX (Encoder.Dialects enc) (MsgID p)) as [crcx|e]; [|discriminate].
  set (crcBytes := u16ToBytes _).
  destruct (Encoder.writeAndCheck _ crcBytes) as [enc3 [e|]] eqn:H3; [discriminate|].
  apply writeAndCheck_nil in H3. destruct H3 as (w3 & -> & H3).
  cbn [Encoder.setWriter Encoder.Dialects Encoder.bw Encoder.CurrSeqID] in *.
  destruct (Flush w3) as [w [e|]] eqn:H4; [discriminate|].
  intros [= <-]. exists crcx.
  cbn [Encoder.Dialects Encoder.bw Encoder.CurrSeqID].
  apply Write_nil in H1. destruct H1 as (_ & _ & _ & Hs1 & Ho1 & _).
  apply Write_nil in H2. destruct H2 as (_ & _ & _ & Hs2 & Ho2 & _).
  apply Write_nil in H3. destruct H3 as (_ & _ & _ & Hs3 & Ho3 & _).
  apply Flush_nil in H4. destruct H4 as (_ & He & Hb & Hs4 & Ho4 & _).
  repeat split; try assumption; try congruence.
  rewrite Ho4, Ho3, app_assoc, Ho2, app_assoc, Ho1.
  unfold frameBytes. fold l. fold hdr.
  subst crcBytes. cbn [tl hdr].
  rewrite checksumOf_steps. now rewrite <- !app_assoc.
Qed.

(** With a healthy writer and room in the sink, [EncodePacket] of a packet
    with a registered id succeeds. *)
Lemma EncodePacket_budget (enc : Encoder.t) (p : Packet) (crcx : byte) :
  fits (Encoder.bw enc) (8 + length (Payload p)) ->
  findCrcX (Encoder.Dialects enc) (MsgID p) = inl crcx ->
  exists enc', Encoder.EncodePacket enc p = (enc', None).
Proof.
  intros Hf Hx. unfold Encoder.EncodePacket.
  set (l := byte.of_Z (Z.of_nat (length (Payload p)))).
  set (hdr := [startByte; l; Encoder.CurrSeqID enc; SysID p; CompID p; MsgID p]).
  destruct (writeAndCheck_budget enc hdr (length (Payload p) + 2)) as (w1 & -> & F1).
  { destruct Hf as [He Hb]. split; [assumption|]. cbn [length hdr]. lia. }
  destruct (writeAndCheck_budget (Encoder.setWriter enc w1) (Payload p) 2)
    as (w2 & -> & F2); [exact F1|].
  cbn [Encoder.setWriter Encoder.Dialects Encoder.bw Encoder.CurrSeqID].
  rewrite Hx.
  set (crcBytes := u16ToBytes _).
  destruct (writeAndCheck_budget
              (Encoder.setWriter (Encoder.setWriter enc w1) w2)
              crcBytes 0) as (w3 & -> & [He3 Hb3]); [exact F2|].
  cbn [Encoder.setWriter Encoder.Dialects Encoder.bw Encoder.CurrSeqID].
  destruct (Flush w3) as [w [e|]] eqn:H4; [|eauto].
  exfalso. revert H4. unfold Flush. rewrite He3.
  destruct (Buffered w3 =? 0)%nat; [discriminate|].
  rewrite sinkWrite_ok by lia. unfold Buffered.
  rewrite Nat.ltb_irrefl. discriminate.
Qed.

(** A failed [EncodePacket] leaves the counter and the registry alone. *)
Lemma EncodePacket_err (enc enc' : Encoder.t) (p : Packet) (e : error) :
  Encoder.EncodePacket enc p = (enc', Some e) ->
  Encoder.CurrSeqID enc' = Encoder.CurrSeqID enc
  /\ Encoder.Dialects enc' = Encoder.Dialects enc.
Proof.
  unfold Encoder.EncodePacket.
  set (hdr := [startByte; _; Encoder.CurrSeqID enc; SysID p; CompID p; MsgID p]).
  destruct (writeAndCheck_writer enc hdr) as [w1 H1].
  destruct (Encoder.writeAndCheck enc hdr) as [enc1 r1]. cbn [fst] in H1. subst enc1.
  destruct r1 as [e1|]; [intros [= <- _]; now split|].
  destruct (writeAndCheck_writer (Encoder.setWriter enc w1) (Payload p)) as [w2 H2].
  destruct (Encoder.writeAndCheck (Encoder.setWriter enc w1) (Payload p)) as [enc2 r2].
  cbn [fst] in H2. subst enc2.
  destruct r2 as [e2|]; [intros [= <- _]; now split|].
  cbn [Encoder.setWriter Encoder.Dialects Encoder.bw Encoder.CurrSeqID].
  destruct (findCrcX (Encoder.Dialects enc) (MsgID p)) as [crcx|e3];
    [|intros [= <- _]; now split].
  set (crcBytes := u16ToBytes _).
  set (enc2 := Encoder.setWriter (Encoder.setWriter enc w1) w2).
  destruct (writeAndCheck_writer enc2 crcBytes) as [w3 H3].
  destruct (Encoder.writeAndCheck enc2 crcBytes) as [enc3 r3].
  cbn [fst] in H3. subst enc3.
  destruct r3 as [e4|]; [intros [= <- _]; now split|].
  cbn [Encoder.setWriter Encoder.Dialects Encoder.bw Encoder.CurrSeqID enc2].
  destruct (Flush w3) as [w [e5|]]; [intros [= <- _]; now split|discriminate].
Qed.

(** A registry none of whose dialects defines the id reports
    [ErrUnknownMsgID]. *)
Lemma findCrcX_absent (ds : DialectSlice) (msgid : byte) :
  Forall (fun d => crcExtra d msgid = None) ds ->
  findCrcX ds msgid = inr ErrUnknownMsgID.
Proof.
  induction 1 as [|d ds Hd _ IH]; cbn [findCrcX]; [reflexivity|].
  now rewrite Hd.
Qed.

(** The first dialect that defines the id wins. *)
Lemma findCrcX_first (d : Dialect) (ds : DialectSlice) (msgid crcx : byte) :
  crcExtra d msgid = Some crcx -> findCrcX (d :: ds) msgid = inl crcx.
Proof. intros Hd. cbn [findCrcX]. now rewrite Hd. Qed.

(** ** The claims about the buffer decoder *)

(** C1 (the code departs from the claim).  The claim asks [DecodeBytes] to
    answer a truncated buffer with an error and never to panic.  On a buffer
    that begins with the start byte, declares 200 payload bytes and holds
    only 50 bytes after the header, the re-slicing [b[hdrLen:hdrLen+payloadLen]]
    is out of range and the call panics. *)
Theorem C1_DecodeBytes_truncated_panics :
  Slice.len truncatedBuffer = 56%nat
  /\ Slice.cap truncatedBuffer = 56%nat
  /\ Decoder.DecodeBytes (sampleDecoder []) truncatedBuffer = Panic.
Proof.
  split; [reflexivity|split; [reflexivity|]].
  apply (DecodeBytes_beyond_cap _ Byte.xc8 Byte.x00 Byte.x01 Byte.x01 Byte.x00
           (repeat Byte.x00 50) []).
  vm_compute. lia.
Qed.

(** Inside a larger backing array the same header makes [DecodeBytes] read
    the stale bytes beyond the length of the buffer as payload, and the call
    then panics on [b[hdrLen+payloadLen:]]. *)
Example DecodeBytes_truncated_reads_spare :
  let b := {| Slice.vis := Slice.vis truncatedBuffer;
              Slice.spare := repeat Byte.x55 1000 |} in
  Slice.range b hdrLen (hdrLen + 200)
  = Done {| Slice.vis := repeat Byte.x00 50 ++ repeat Byte.x55 150;
            Slice.spare := repeat Byte.x55 850 |}
  /\ Decoder.DecodeBytes (sampleDecoder []) b = Panic.
Proof. split; vm_compute; reflexivity. Qed.

(** C10.  A buffer that begins with a complete frame and continues with
    trailing bytes (and any spare capacity) decodes exactly as the frame
    alone does: the same decoder state, packet and error, the payload being
    the declared bytes and the checksum the two bytes right after them. *)
Theorem C10_DecodeBytes_ignores_trailing
        (dec : Decoder.t) (payload trailing spare : list byte)
        (l seq sys comp msgid c0 c1 : byte) :
  length payload = Z.to_nat (byte.unsigned l) ->
  let frame := startByte :: l :: seq :: sys :: comp :: msgid
                 :: payload ++ [c0; c1] in
  exists dec' q err,
    Decoder.DecodeBytes dec (Slice.of_list frame) = Done (dec', Some q, err)
    /\ Decoder.DecodeBytes dec
         {| Slice.vis := frame ++ trailing; Slice.spare := spare |}
       = Done (dec', Some q, err)
    /\ Payload q = payload
    /\ Checksum q = match findCrcX (Decoder.Dialects dec) msgid with
                    | inl _ => le16 c0 c1
                    | inr _ => 0
                    end.
Proof.
  intros Hlen frame.
  pose proof (DecodeBytes_frame dec payload [] [] l seq sys comp msgid c0 c1 Hlen)
    as Hexact.
  pose proof (DecodeBytes_frame dec payload trailing spare l seq sys comp msgid
                c0 c1 Hlen) as Hlong.
  replace (Slice.of_list frame)
    with {| Slice.vis := startByte :: l :: seq :: sys :: comp :: msgid
                           :: payload ++ [c0; c1];
            Slice.spare := [] |} by reflexivity.
  replace (frame ++ trailing)
    with (startByte :: l :: seq :: sys :: comp :: msgid
            :: payload ++ c0 :: c1 :: trailing)
    by (unfold frame; cbn [app]; now rewrite <- app_assoc).
  rewrite Hexact, Hlong.
  destruct (findCrcX (Decoder.Dialects dec) msgid) as [crcx|e].
  - cbv zeta. destruct (le16 c0 c1 =? _); eexists _, _, _; repeat split.
  - eexists _, _, _; repeat split.
Qed.

Lemma C10_witness :
  length [Byte.x10; Byte.x20; Byte.xfe] = Z.to_nat (byte.unsigned Byte.x03)
  /\ exists dec' q err,
      Decoder.DecodeBytes (sampleDecoder [])
        (Slice.of_list
           (startByte :: Byte.x03 :: Byte.x00 :: Byte.x03 :: Byte.x04 :: Byte.x01
              :: [Byte.x10; Byte.x20; Byte.xfe] ++ [Byte.xf0; Byte.xb4]))
      = Done (dec', Some q, err)
      /\ Decoder.DecodeBytes (sampleDecoder [])
           {| Slice.vis :=
                (startByte :: Byte.x03 :: Byte.x00 :: Byte.x03 :: Byte.x04 :: Byte.x01
                   :: [Byte.x10; Byte.x20; Byte.xfe] ++ [Byte.xf0; Byte.xb4])
                  ++ [Byte.x99; Byte.xfe];
              Slice.spare := [Byte.x77] |}
         = Done (dec', Some q, err)
      /\ Payload q = [Byte.x10; Byte.x20; Byte.xfe]
      /\ Checksum q = match findCrcX (Decoder.Dialects (sampleDecoder [])) Byte.x01 with
                      | inl _ => le16 Byte.xf0 Byte.xb4
                      | inr _ => 0
                      end.
Proof.
  split; [reflexivity|].
  apply (C10_DecodeBytes_ignores_trailing (sampleDecoder [])
           [Byte.x10; Byte.x20; Byte.xfe] [Byte.x99; Byte.xfe] [Byte.x77]
           Byte.x03 Byte.x00 Byte.x03 Byte.x04 Byte.x01 Byte.xf0 Byte.xb4).
  reflexivity.
Defined.

(** ** The claims about the streaming decoder *)

(** C6.  A well-formed frame whose message id no registered dialect defines
    makes [Decode] fail with [ErrUnknownMsgID]; the packet handed back has
    its header fields and its payload, its checksum is still unset and the
    two checksum bytes play no part in the result; the decoder's sequence id
    stays as it was. *)
Theorem C6_Decode_unknown_message
        (dec : Decoder.t) (garbage payload rest : list byte)
        (l seq sys comp msgid c0 c1 : byte) (e : error) :
  Forall (fun c => c <> startByte) garbage ->
  length payload = Z.to_nat (byte.unsigned l) ->
  Forall (fun d => crcExtra d msgid = None) (Decoder.Dialects dec) ->
  Decoder.Decode
    (Decoder.setReader dec
       {| pending := garbage ++ startByte :: l :: seq :: sys :: comp :: msgid
                       :: payload ++ c0 :: c1 :: rest;
          fail := e |})
  = Done (Decoder.setReader dec {| pending := rest; fail := e |},
          Some {| SeqID := seq; SysID := sys; CompID := comp; MsgID := msgid;
                  Payload := payload; Checksum := 0 |},
          Some ErrUnknownMsgID).
Proof.
  intros Hg Hlen Habs.
  rewrite (Decode_frame _ garbage payload rest l seq sys comp msgid c0 c1 e Hg Hlen)
    by reflexivity.
  cbn [Decoder.setReader Decoder.Dialects].
  now rewrite (findCrcX_absent _ _ Habs).
Qed.

Lemma C6_witness :
  Forall (fun c => c <> startByte) [Byte.x11]
  /\ length [Byte.xaa] = Z.to_nat (byte.unsigned Byte.x01)
  /\ Forall (fun d => crcExtra d Byte.x07 = None) (Decoder.Dialects (sampleDecoder []))
  /\ Decoder.Decode
       (Decoder.setReader (sampleDecoder [])
          {| pending := [Byte.x11] ++ startByte :: Byte.x01 :: Byte.x05 :: Byte.x01
                          :: Byte.x02 :: Byte.x07
                          :: [Byte.xaa] ++ Byte.x12 :: Byte.x34 :: [Byte.x56];
             fail := EOF |})
     = Done (Decoder.setReader (sampleDecoder [])
               {| pending := [Byte.x56]; fail := EOF |},
             Some {| SeqID := Byte.x05; SysID := Byte.x01; CompID := Byte.x02;
                     MsgID := Byte.x07; Payload := [Byte.xaa]; Checksum := 0 |},
             Some ErrUnknownMsgID).
Proof.
  assert (Hg : Forall (fun c => c <> startByte) [Byte.x11])
    by (repeat constructor; discriminate).
  assert (Hd : Forall (fun d => crcExtra d Byte.x07 = None)
                 (Decoder.Dialects (sampleDecoder [])))
    by (repeat constructor).
  split; [exact Hg|split; [reflexivity|split; [exact Hd|]]].
  apply (C6_Decode_unknown_message (sampleDecoder []) [Byte.x11] [Byte.xaa]
           [Byte.x56] Byte.x01 Byte.x05 Byte.x01 Byte.x02 Byte.x07 Byte.x12
           Byte.x34 EOF Hg eq_refl Hd).
Defined.

(** C7.  On a fully parsed frame with a registered id, [Decode] compares the
    transmitted checksum with the computed one: if they differ it fails with
    [ErrCrcFail], hands the parsed packet back and leaves the decoder's
    sequence id alone; if they agree it sets the decoder's sequence id to
    the packet's and returns the packet with no error. *)
Theorem C7_Decode_checksum_verdict
        (dec : Decoder.t) (garbage payload rest : list byte)
        (l seq sys comp msgid c0 c1 crcx : byte) (e : error) :
  Forall (fun c => c <> startByte) garbage ->
  length payload = Z.to_nat (byte.unsigned l) ->
  findCrcX (Decoder.Dialects dec) msgid = inl crcx ->
  let stream := {| pending := garbage ++ startByte :: l :: seq :: sys :: comp
                                :: msgid :: payload ++ c0 :: c1 :: rest;
                   fail := e |} in
  let transmitted := byte.unsigned c0 + 256 * byte.unsigned c1 in
  let computed := checksumOf [l; seq; sys; comp; msgid] payload crcx in
  let p := {| SeqID := seq; SysID := sys; CompID := comp; MsgID := msgid;
              Payload := payload; Checksum := transmitted |} in
  let agree := transmitted =? computed in
  exists dec',
    Decoder.Decode (Decoder.setReader dec stream)
    = Done (dec', Some p, if agree then None else Some ErrCrcFail)
    /\ Decoder.CurrSeqID dec' = (if agree then seq else Decoder.CurrSeqID dec)
    /\ Decoder.Dialects dec' = Decoder.Dialects dec
    /\ Decoder.br dec' = {| pending := rest; fail := e |}.
Proof.
  intros Hg Hlen Hx stream transmitted computed p agree.
  unfold stream.
  rewrite (Decode_frame _ garbage payload rest l seq sys comp msgid c0 c1 e Hg Hlen)
    by reflexivity.
  cbn [Decoder.setReader Decoder.Dialects]. rewrite Hx. cbv zeta.
  rewrite le16_add. fold transmitted. fold computed. fold agree.
  unfold headerPacket. fold p.
  destruct agree; eexists; repeat split.
Qed.

Lemma C7_witness :
  Forall (fun c => c <> startByte) [Byte.x11]
  /\ length [Byte.x10; Byte.x20; Byte.xfe] = Z.to_nat (byte.unsigned Byte.x03)
  /\ findCrcX (Decoder.Dialects (sampleDecoder [])) Byte.x01 = inl Byte.x7c
  /\ exists dec',
      Decoder.Decode
        (Decoder.setReader (sampleDecoder [])
           {| pending := [Byte.x11] ++ startByte :: Byte.x03 :: Byte.x00 :: Byte.x03
                           :: Byte.x04 :: Byte.x01
                           :: [Byte.x10; Byte.x20; Byte.xfe]
                           ++ Byte.xf0 :: Byte.xb4 :: [];
              fail := EOF |})
      = Done (dec',
              Some {| SeqID := Byte.x00; SysID := Byte.x03; CompID := Byte.x04;
                      MsgID := Byte.x01; Payload := [Byte.x10; Byte.x20; Byte.xfe];
                      Checksum := byte.unsigned Byte.xf0 + 256 * byte.unsigned Byte.xb4 |},
              if byte.unsigned Byte.xf0 + 256 * byte.unsigned Byte.xb4
                 =? checksumOf [Byte.x03; Byte.x00; Byte.x03; Byte.x04; Byte.x01]
                      [Byte.x10; Byte.x20; Byte.xfe] Byte.x7c
              then None else Some ErrCrcFail)
      /\ Decoder.CurrSeqID dec'
         = (if byte.unsigned Byte.xf0 + 256 * byte.unsigned Byte.xb4
               =? checksumOf [Byte.x03; Byte.x00; Byte.x03; Byte.x04; Byte.x01]
                    [Byte.x10; Byte.x20; Byte.xfe] Byte.x7c
            then Byte.x00 else Decoder.CurrSeqID (sampleDecoder []))
      /\ Decoder.Dialects dec' = Decoder.Dialects (sampleDecoder [])
      /\ Decoder.br dec' = {| pending := []; fail := EOF |}.
Proof.
  assert (Hg : Forall (fun c => c <> startByte) [Byte.x11])
    by (repeat constructor; discriminate).
  split; [exact Hg|split; [reflexivity|split; [reflexivity|]]].
  apply (C7_Decode_checksum_verdict (sampleDecoder []) [Byte.x11]
           [Byte.x10; Byte.x20; Byte.xfe] [] Byte.x03 Byte.x00 Byte.x03 Byte.x04
           Byte.x01 Byte.xf0 Byte.xb4 Byte.x7c EOF Hg eq_refl eq_refl).
Defined.

(** Both verdicts occur: the frame of [dataPacket] is accepted, and the same
    frame with its last byte changed is rejected. *)
Example Decode_accepts_and_rejects :
  (exists dec' q,
      Decoder.Decode
        (sampleDecoder [Byte.xfe; Byte.x03; Byte.x00; Byte.x03; Byte.x04; Byte.x01;
                        Byte.x10; Byte.x20; Byte.xfe; Byte.xf0; Byte.xb4])
      = Done (dec', Some q, None))
  /\ (exists dec' q,
         Decoder.Decode
           (sampleDecoder [Byte.xfe; Byte.x03; Byte.x00; Byte.x03; Byte.x04; Byte.x01;
                           Byte.x10; Byte.x20; Byte.xfe; Byte.xf0; Byte.xb5])
         = Done (dec', Some q, Some ErrCrcFail)
         /\ Decoder.CurrSeqID dec' = Byte.x00).
Proof. split; vm_compute; eauto. Qed.

(** C8.  From a stream of bytes none of which is the start byte, followed by
    one valid frame, a single [Decode] discards the leading bytes and returns
    the frame with no error, the stream being used up (a further call finds
    the end of the stream); from a stream that ends before any start byte,
    [Decode] returns the end-of-stream error and no packet. *)
Theorem C8_Decode_resynchronises
        (dec : Decoder.t) (garbage junk payload : list byte)
        (l seq sys comp msgid c0 c1 crcx : byte) (e : error) :
  Forall (fun c => c <> startByte) garbage ->
  Forall (fun c => c <> startByte) junk ->
  length payload = Z.to_nat (byte.unsigned l) ->
  findCrcX (Decoder.Dialects dec) msgid = inl crcx ->
  le16 c0 c1 = checksumOf [l; seq; sys; comp; msgid] payload crcx ->
  let frame := startByte :: l :: seq :: sys :: comp :: msgid
                 :: payload ++ [c0; c1] in
  let drained := {| pending := []; fail := e |} in
  let dec1 := Decoder.setSeqID (Decoder.setReader dec drained) seq in
  Decoder.Decode (Decoder.setReader dec {| pending := garbage ++ frame; fail := e |})
  = Done (dec1,
          Some {| SeqID := seq; SysID := sys; CompID := comp; MsgID := msgid;
                  Payload := payload; Checksum := le16 c0 c1 |},
          None)
  /\ Decoder.Decode dec1 = Done (dec1, None, Some e)
  /\ Decoder.Decode (Decoder.setReader dec {| pending := junk; fail := e |})
     = Done (Decoder.setReader dec drained, None, Some e).
Proof.
  intros Hg Hj Hlen Hx Hsum frame drained dec1. split; [|split].
  - unfold frame.
    rewrite (Decode_frame _ garbage payload [] l seq sys comp msgid c0 c1 e Hg Hlen)
      by reflexivity.
    cbn [Decoder.setReader Decoder.Dialects]. rewrite Hx. cbv zeta.
    rewrite Hsum, Z.eqb_refl. reflexivity.
  - reflexivity.
  - unfold Decoder.Decode. cbn [Decoder.setReader Decoder.br pending fail].
    now rewrite (seekStart_no_start _ _ Hj).
Qed.

Lemma C8_witness :
  Forall (fun c => c <> startByte) [Byte.x11; Byte.x22; Byte.x00]
  /\ Forall (fun c => c <> startByte) [Byte.x33; Byte.x44]
  /\ length [Byte.x10; Byte.x20; Byte.xfe] = Z.to_nat (byte.unsigned Byte.x03)
  /\ findCrcX (Decoder.Dialects (sampleDecoder [])) Byte.x01 = inl Byte.x7c
  /\ le16 Byte.xf0 Byte.xb4
     = checksumOf [Byte.x03; Byte.x00; Byte.x03; Byte.x04; Byte.x01]
         [Byte.x10; Byte.x20; Byte.xfe] Byte.x7c
  /\ Decoder.Decode
       (Decoder.setReader (sampleDecoder [])
          {| pending := [Byte.x11; Byte.x22; Byte.x00]
                          ++ startByte :: Byte.x03 :: Byte.x00 :: Byte.x03 :: Byte.x04
                          :: Byte.x01 :: [Byte.x10; Byte.x20; Byte.xfe]
                          ++ [Byte.xf0; Byte.xb4];
             fail := EOF |})
     = Done (Decoder.setSeqID
               (Decoder.setReader (sampleDecoder []) {| pending := []; fail := EOF |})
               Byte.x00,
             Some {| SeqID := Byte.x00; SysID := Byte.x03; CompID := Byte.x04;
                     MsgID := Byte.x01; Payload := [Byte.x10; Byte.x20; Byte.xfe];
                     Checksum := le16 Byte.xf0 Byte.xb4 |},
             None)
  /\ Decoder.Decode
       (Decoder.setSeqID
          (Decoder.setReader (sampleDecoder []) {| pending := []; fail := EOF |})
          Byte.x00)
     = Done (Decoder.setSeqID
               (Decoder.setReader (sampleDecoder []) {| pending := []; fail := EOF |})
               Byte.x00,
             None, Some EOF)
  /\ Decoder.Decode
       (Decoder.setReader (sampleDecoder [])
          {| pending := [Byte.x33; Byte.x44]; fail := EOF |})
     = Done (Decoder.setReader (sampleDecoder []) {| pending := []; fail := EOF |},
             None, Some EOF).
Proof.
  assert (Hg : Forall (fun c => c <> startByte) [Byte.x11; Byte.x22; Byte.x00])
    by (repeat constructor; discriminate).
  assert (Hj : Forall (fun c => c <> startByte) [Byte.x33; Byte.x44])
    by (repeat constructor; discriminate).
  assert (Hs : le16 Byte.xf0 Byte.xb4
               = checksumOf [Byte.x03; Byte.x00; Byte.x03; Byte.x04; Byte.x01]
                   [Byte.x10; Byte.x20; Byte.xfe] Byte.x7c)
    by (vm_compute; reflexivity).
  split; [exact Hg|split; [exact Hj|split; [reflexivity|split; [reflexivity|]]]].
  split; [exact Hs|].
  apply (C8_Decode_resynchronises (sampleDecoder []) [Byte.x11; Byte.x22; Byte.x00]
           [Byte.x33; Byte.x44] [Byte.x10; Byte.x20; Byte.xfe]
           Byte.x03 Byte.x00 Byte.x03 Byte.x04 Byte.x01 Byte.xf0 Byte.xb4 Byte.x7c
           EOF Hg Hj eq_refl eq_refl Hs).
Defined.

(** ** The claims about the encoder *)

Lemma of_Z_succ (a : Z) :
  byte.of_Z (byte.unsigned (byte.of_Z a) + 1) = byte.of_Z (a + 1).
Proof.
  apply byte.unsigned_inj. rewrite !byte.unsigned_of_Z. unfold byte.wrap.
  now rewrite Z.add_mod_idemp_l by (change (2 ^ 8) with 256; lia).
Qed.




(** A run of successful calls: the bytes written (sent or, before the first
    call, still buffered) are followed by the frames one after the other,
    numbered from the counter's value, and the counter has advanced by the
    number of calls. *)
Lemma EncodeAll_nil (ps : list Packet) :
  forall (enc enc' : Encoder.t) (errs : list (option error)) (s : Z),
    Encoder.CurrSeqID enc = byte.of_Z s ->
    EncodeAll enc ps = (enc', errs) ->
    Forall (fun err => err = None) errs ->
    out (wr (Encoder.bw enc')) ++ buf (Encoder.bw enc')
    = out (wr (Encoder.bw enc)) ++ buf (Encoder.bw enc)
        ++ concat (framesFrom (Encoder.Dialects enc) s ps)
    /\ Encoder.CurrSeqID enc' = byte.of_Z (s + Z.of_nat (length ps)).
Proof.
  induction ps as [|p ps IH]; intros enc enc' errs s Hs; cbn [EncodeAll].
  - intros [= <- <-] _. cbn [framesFrom concat length].
    rewrite app_nil_r, Z.add_0_r. now split.
  - destruct (Encoder.EncodePacket enc p) as [enc1 err] eqn:H1.
    destruct (EncodeAll enc1 ps) as [enc2 errs2] eqn:H2.
    intros [= <- <-] Hall. inversion Hall as [|? ? Herr Hrest]; subst.
    apply EncodePacket_nil in H1.
    destruct H1 as (crcx & Hx & Hseq & Hds & Hb1 & _ & _ & Hout).
    rewrite Hs, of_Z_succ in Hseq.
    destruct (IH enc1 enc2 errs2 (s + 1) Hseq H2 Hrest) as [Hout2 Hseq2].
    split.
    + rewrite Hout2, Hout, Hb1, Hds. cbn [app framesFrom concat].
      unfold crcxOf. rewrite Hx, Hs. now rewrite <- !app_assoc.
    + rewrite Hseq2. f_equal. cbn [length]. lia.
Qed.

(** C2.  A packet with at most 255 payload bytes and an id that the
    registries of encoder and decoder resolve (to the same seed) survives
    the trip: [EncodePacket] succeeds, and [Decode] on the bytes it has
    produced succeeds with a packet that has the same system id, component
    id, message id and payload, under the encoder's sequence id. *)
Theorem C2_encode_decode_roundtrip
        (enc : Encoder.t) (dec : Decoder.t) (p : Packet) (crcx : byte)
        (rest : list byte) (e : error) :
  (length (Payload p) <= 255)%nat ->
  findCrcX (Encoder.Dialects enc) (MsgID p) = inl crcx ->
  findCrcX (Decoder.Dialects dec) (MsgID p) = inl crcx ->
  fits (Encoder.bw enc) (8 + length (Payload p)) ->
  exists enc' produced dec' q,
    Encoder.EncodePacket enc p = (enc', None)
    /\ out (wr (Encoder.bw enc'))
       = out (wr (Encoder.bw enc)) ++ buf (Encoder.bw enc) ++ produced
    /\ Decoder.Decode
         (Decoder.setReader dec {| pending := produced ++ rest; fail := e |})
       = Done (dec', Some q, None)
    /\ SysID q = SysID p /\ CompID q = CompID p /\ MsgID q = MsgID p
    /\ Payload q = Payload p
    /\ SeqID q = Encoder.CurrSeqID enc
    /\ Decoder.CurrSeqID dec' = Encoder.CurrSeqID enc
    /\ Decoder.br dec' = {| pending := rest; fail := e |}.
Proof.
  intros Hlen Hxe Hxd Hfits.
  destruct (EncodePacket_budget enc p crcx Hfits Hxe) as [enc' Henc].
  pose proof (EncodePacket_nil _ _ _ Henc) as (crcx' & Hx' & _ & _ & _ & _ & _ & Hout).
  rewrite Hxe in Hx'. injection Hx' as <-.
  set (l := byte.of_Z (Z.of_nat (length (Payload p)))).
  set (hdr5 := [l; Encoder.CurrSeqID enc; SysID p; CompID p; MsgID p]).
  destruct (u16ToBytes_le16 (checksumOf hdr5 (Payload p) crcx)
              (checksumOf_u16 _ _ _)) as (lo & hi & Hbytes & _ & _ & Hle).
  assert (Hl : length (Payload p) = Z.to_nat (byte.unsigned l)).
  { unfold l. rewrite byte_unsigned_of_nat by assumption. now rewrite Nat2Z.id. }
  assert (Hfr : frameBytes (Encoder.CurrSeqID enc) p crcx ++ rest
                = startByte :: l :: Encoder.CurrSeqID enc :: SysID p :: CompID p
                    :: MsgID p :: Payload p ++ lo :: hi :: rest).
  { unfold frameBytes. fold l. fold hdr5. rewrite Hbytes.
    unfold hdr5. cbn [app]. now rewrite <- app_assoc. }
  exists enc', (frameBytes (Encoder.CurrSeqID enc) p crcx).
  rewrite Hfr.
  rewrite (Decode_frame _ [] (Payload p) rest l (Encoder.CurrSeqID enc) (SysID p)
             (CompID p) (MsgID p) lo hi e (Forall_nil _) Hl) by reflexivity.
  cbn [Decoder.setReader Decoder.Dialects]. rewrite Hxd. cbv zeta.
  fold hdr5. rewrite Hle, Z.eqb_refl.
  eexists _, _. split; [exact Henc|]. split; [exact Hout|].
  repeat split.
Qed.

Lemma C2_witness :
  (length (Payload dataPacket) <= 255)%nat
  /\ findCrcX (Encoder.Dialects sampleEncoder) (MsgID dataPacket) = inl Byte.x7c
  /\ findCrcX (Decoder.Dialects (sampleDecoder [])) (MsgID dataPacket) = inl Byte.x7c
  /\ fits (Encoder.bw sampleEncoder) (8 + length (Payload dataPacket))
  /\ exists enc' produced dec' q,
      Encoder.EncodePacket sampleEncoder dataPacket = (enc', None)
      /\ out (wr (Encoder.bw enc'))
         = out (wr (Encoder.bw sampleEncoder)) ++ buf (Encoder.bw sampleEncoder)
             ++ produced
      /\ Decoder.Decode
           (Decoder.setReader (sampleDecoder [])
              {| pending := produced ++ [Byte.x01]; fail := EOF |})
         = Done (dec', Some q, None)
      /\ SysID q = SysID dataPacket /\ CompID q = CompID dataPacket
      /\ MsgID q = MsgID dataPacket
      /\ Payload q = Payload dataPacket
      /\ SeqID q = Encoder.CurrSeqID sampleEncoder
      /\ Decoder.CurrSeqID dec' = Encoder.CurrSeqID sampleEncoder
      /\ Decoder.br dec' = {| pending := [Byte.x01]; fail := EOF |}.
Proof.
  assert (Hlen : (length (Payload dataPacket) <= 255)%nat) by (cbn; lia).
  assert (Hfits : fits (Encoder.bw sampleEncoder) (8 + length (Payload dataPacket)))
    by (split; [reflexivity|cbn; lia]).
  split; [exact Hlen|split; [reflexivity|split; [reflexivity|]]].
  split; [exact Hfits|].
  apply (C2_encode_decode_roundtrip sampleEncoder (sampleDecoder []) dataPacket
           Byte.x7c [Byte.x01] EOF Hlen eq_refl eq_refl Hfits).
Defined.

(** C3.  Encoder and decoder feed the checksum the five header bytes after
    the start marker, then the payload, then the crc-extra seed, in that
    order; the encoder appends the sum low byte first and the decoder reads
    it low byte first.  For a packet with system id 1, component id 1,
    message id 0 and no payload the wire bytes are
    [FE 00 <seq> 01 01 00 <lo> <hi>], the sum being the CRC of
    [00 <seq> 01 01 00] and the seed of message id 0. *)
Theorem C3_checksum_input_and_byte_order
        (enc : Encoder.t) (dec : Decoder.t) (p : Packet) (crcx seq c0 c1 : byte)
        (rest : list byte) (e : error) :
  (length (Payload p) <= 255)%nat ->
  findCrcX (Encoder.Dialects enc) (MsgID p) = inl crcx ->
  findCrcX (Decoder.Dialects dec) (MsgID p) = inl crcx ->
  fits (Encoder.bw enc) (8 + length (Payload p)) ->
  let l := byte.of_Z (Z.of_nat (length (Payload p))) in
  let sent :=
    x25.Sum16 (x25.Write x25.New
                 ([l; Encoder.CurrSeqID enc; SysID p; CompID p; MsgID p]
                    ++ Payload p ++ [crcx])) in
  let expected :=
    x25.Sum16 (x25.Write x25.New
                 ([l; seq; SysID p; CompID p; MsgID p] ++ Payload p ++ [crcx])) in
  (exists enc' lo hi,
      Encoder.EncodePacket enc p = (enc', None)
      /\ out (wr (Encoder.bw enc'))
         = out (wr (Encoder.bw enc)) ++ buf (Encoder.bw enc)
             ++ [startByte; l; Encoder.CurrSeqID enc; SysID p; CompID p; MsgID p]
             ++ Payload p ++ [lo; hi]
      /\ byte.unsigned lo = sent mod 256
      /\ byte.unsigned hi = sent / 256)
  /\ (exists dec' q,
         Decoder.Decode
           (Decoder.setReader dec
              {| pending := startByte :: l :: seq :: SysID p :: CompID p :: MsgID p
                              :: Payload p ++ c0 :: c1 :: rest;
                 fail := e |})
         = Done (dec', Some q,
                 if byte.unsigned c0 + 256 * byte.unsigned c1 =? expected
                 then None else Some ErrCrcFail)
         /\ Checksum q = byte.unsigned c0 + 256 * byte.unsigned c1)
  /\ (SysID p = Byte.x01 -> CompID p = Byte.x01 -> MsgID p = Byte.x00 ->
      Payload p = [] ->
      exists enc' lo hi,
        Encoder.EncodePacket enc p = (enc', None)
        /\ out (wr (Encoder.bw enc'))
           = out (wr (Encoder.bw enc)) ++ buf (Encoder.bw enc)
               ++ [Byte.xfe; Byte.x00; Encoder.CurrSeqID enc; Byte.x01; Byte.x01;
                   Byte.x00; lo; hi]
        /\ byte.unsigned lo + 256 * byte.unsigned hi
           = x25.Sum16 (x25.Write x25.New
                          [Byte.x00; Encoder.CurrSeqID enc; Byte.x01; Byte.x01;
                           Byte.x00; crcx])).
Proof.
  intros Hlen Hxe Hxd Hfits l sent expected.
  assert (Hl : length (Payload p) = Z.to_nat (byte.unsigned l)).
  { unfold l. rewrite byte_unsigned_of_nat by assumption. now rewrite Nat2Z.id. }
  assert (Henc : exists enc' lo hi,
             Encoder.EncodePacket enc p = (enc', None)
             /\ out (wr (Encoder.bw enc'))
                = out (wr (Encoder.bw enc)) ++ buf (Encoder.bw enc)
                    ++ [startByte; l; Encoder.CurrSeqID enc; SysID p; CompID p; MsgID p]
                    ++ Payload p ++ [lo; hi]
             /\ byte.unsigned lo = sent mod 256
             /\ byte.unsigned hi = sent / 256).
  { destruct (EncodePacket_budget enc p crcx Hfits Hxe) as [enc' Henc].
    pose proof (EncodePacket_nil _ _ _ Henc)
      as (crcx' & Hx' & _ & _ & _ & _ & _ & Hout).
    rewrite Hxe in Hx'. injection Hx' as <-.
    unfold frameBytes in Hout. fold l in Hout.
    change (checksumOf _ (Payload p) crcx) with sent in Hout.
    assert (Hrange : 0 <= sent < 65536) by apply checksumOf_u16.
    destruct (u16ToBytes_le16 sent Hrange) as (lo & hi & Hbytes & Hlo & Hhi & _).
    rewrite Hbytes in Hout. now exists enc', lo, hi. }
  split; [exact Henc|]. split.
  - rewrite (Decode_frame _ [] (Payload p) rest l seq (SysID p) (CompID p) (MsgID p)
               c0 c1 e (Forall_nil _) Hl) by reflexivity.
    cbn [Decoder.setReader Decoder.Dialects]. rewrite Hxd. cbv zeta.
    rewrite le16_add.
    change (checksumOf [l; seq; SysID p; CompID p; MsgID p] (Payload p) crcx)
      with expected.
    destruct (_ =? expected); eexists _, _; split; reflexivity.
  - intros Hsys Hcomp Hmsg Hpay.
    destruct Henc as (enc' & lo & hi & Henc & Hout & Hlo & Hhi).
    exists enc', lo, hi. split; [exact Henc|].
    assert (Hl0 : l = Byte.x00) by (unfold l; now rewrite Hpay).
    split.
    + rewrite Hout, Hl0, Hsys, Hcomp, Hmsg, Hpay. reflexivity.
    + rewrite Hlo, Hhi. unfold sent. rewrite Hl0, Hsys, Hcomp, Hmsg, Hpay.
      cbn [app].
      match goal with |- ?a mod 256 + 256 * (?a / 256) = _ =>
        pose proof (Z.div_mod a 256 ltac:(lia)) end.
      lia.
Qed.

Lemma C3_witness :
  (length (Payload samplePacket) <= 255)%nat
  /\ findCrcX (Encoder.Dialects sampleEncoder) (MsgID samplePacket) = inl Byte.x32
  /\ findCrcX (Decoder.Dialects (sampleDecoder [])) (MsgID samplePacket) = inl Byte.x32
  /\ fits (Encoder.bw sampleEncoder) (8 + length (Payload samplePacket))
  /\ SysID samplePacket = Byte.x01 /\ CompID samplePacket = Byte.x01
  /\ MsgID samplePacket = Byte.x00 /\ Payload samplePacket = []
  /\ (exists enc' lo hi,
         Encoder.EncodePacket sampleEncoder samplePacket = (enc', None)
         /\ out (wr (Encoder.bw enc'))
            = out (wr (Encoder.bw sampleEncoder)) ++ buf (Encoder.bw sampleEncoder)
                ++ [startByte; Byte.x00; Encoder.CurrSeqID sampleEncoder; Byte.x01;
                    Byte.x01; Byte.x00] ++ [] ++ [lo; hi]
         /\ byte.unsigned lo
            = x25.Sum16 (x25.Write x25.New
                           ([Byte.x00; Encoder.CurrSeqID sampleEncoder; Byte.x01;
                             Byte.x01; Byte.x00] ++ [] ++ [Byte.x32])) mod 256
         /\ byte.unsigned hi
            = x25.Sum16 (x25.Write x25.New
                           ([Byte.x00; Encoder.CurrSeqID sampleEncoder; Byte.x01;
                             Byte.x01; Byte.x00] ++ [] ++ [Byte.x32])) / 256)
  /\ (exists dec' q,
         Decoder.Decode
           (Decoder.setReader (sampleDecoder [])
              {| pending := startByte :: Byte.x00 :: Byte.x09 :: Byte.x01 :: Byte.x01
                              :: Byte.x00 :: [] ++ Byte.x86 :: Byte.x5c :: [];
                 fail := EOF |})
         = Done (dec', Some q,
                 if byte.unsigned Byte.x86 + 256 * byte.unsigned Byte.x5c
                    =? x25.Sum16 (x25.Write x25.New
                                    ([Byte.x00; Byte.x09; Byte.x01; Byte.x01; Byte.x00]
                                       ++ [] ++ [Byte.x32]))
                 then None else Some ErrCrcFail)
         /\ Checksum q = byte.unsigned Byte.x86 + 256 * byte.unsigned Byte.x5c)
  /\ exists enc' lo hi,
      Encoder.EncodePacket sampleEncoder samplePacket = (enc', None)
      /\ out (wr (Encoder.bw enc'))
         = out (wr (Encoder.bw sampleEncoder)) ++ buf (Encoder.bw sampleEncoder)
             ++ [Byte.xfe; Byte.x00; Encoder.CurrSeqID sampleEncoder; Byte.x01;
                 Byte.x01; Byte.x00; lo; hi]
      /\ byte.unsigned lo + 256 * byte.unsigned hi
         = x25.Sum16 (x25.Write x25.New
                        [Byte.x00; Encoder.CurrSeqID sampleEncoder; Byte.x01;
                         Byte.x01; Byte.x00; Byte.x32]).
Proof.
  assert (Hlen : (length (Payload samplePacket) <= 255)%nat) by (cbn; lia).
  assert (Hfits : fits (Encoder.bw sampleEncoder) (8 + length (Payload samplePacket)))
    by (split; [reflexivity|cbn; lia]).
  split; [exact Hlen|split; [reflexivity|split; [reflexivity|]]].
  split; [exact Hfits|].
  split; [reflexivity|split; [reflexivity|split; [reflexivity|split; [reflexivity|]]]].
  destruct (C3_checksum_input_and_byte_order sampleEncoder (sampleDecoder [])
              samplePacket Byte.x32 Byte.x09 Byte.x86 Byte.x5c [] EOF
              Hlen eq_refl eq_refl Hfits) as (Hsend & Hrecv & Hcase).
  split; [exact Hsend|split; [exact Hrecv|]].
  exact (Hcase eq_refl eq_refl eq_refl eq_refl).
Defined.

(** The sample frame is what the encoder emits for the sample packet, and
    its checksum is 0x5C86. *)
Example sampleFrame_encoded :
  out (wr (Encoder.bw (fst (Encoder.EncodePacket sampleEncoder samplePacket))))
  = sampleFrame
  /\ x25.Sum16 (x25.Write x25.New
                  [Byte.x00; Byte.x00; Byte.x01; Byte.x01; Byte.x00; Byte.x32])
     = 0x5c86.
Proof. split; vm_compute; reflexivity. Qed.



(** The run of the witness on the wire: sequence ids 255 and then 0. *)
Example wrapEncoder_run :
  out (wr (Encoder.bw (fst (EncodeAll wrapEncoder [samplePacket; dataPacket]))))
  = [Byte.xfe; Byte.x00; Byte.xff; Byte.x01; Byte.x01; Byte.x00; Byte.xdc; Byte.xa9]
      ++ [Byte.xfe; Byte.x03; Byte.x00; Byte.x03; Byte.x04; Byte.x01;
          Byte.x10; Byte.x20; Byte.xfe; Byte.xf0; Byte.xb4]
  /\ Encoder.CurrSeqID (fst (EncodeAll wrapEncoder [samplePacket; dataPacket]))
     = Byte.x01.
Proof. split; vm_compute; reflexivity. Qed.

(** An unregistered id with room in the buffer: [EncodePacket] fails with
    [ErrUnknownMsgID], the counter and the sink are as before, and the header
    and payload of the aborted frame stay queued in the buffer. *)
Lemma EncodePacket_unknown (enc : Encoder.t) (p : Packet) :
  werr (Encoder.bw enc) = None ->
  (6 + length (Payload p) <= Available (Encoder.bw enc))%nat ->
  Forall (fun d => crcExtra d (MsgID p) = None) (Encoder.Dialects enc) ->
  Encoder.EncodePacket enc p
  = (Encoder.setWriter enc
       {| wr := wr (Encoder.bw enc);
          buf := (buf (Encoder.bw enc)
                    ++ [startByte; byte.of_Z (Z.of_nat (length (Payload p)));
                        Encoder.CurrSeqID enc; SysID p; CompID p; MsgID p])
                   ++ Payload p;
          size := size (Encoder.bw enc);
          werr := None |},
     Some ErrUnknownMsgID).
Proof.
  intros He Hroom Habs. unfold Encoder.EncodePacket, Encoder.writeAndCheck.
  unfold Available in Hroom.
  rewrite Write_fits by (try assumption; unfold Available; cbn [length]; lia).
  cbn [isNil andb length Nat.eqb negb Encoder.setWriter Encoder.bw].
  rewrite Write_fits
    by (try reflexivity; unfold Available; cbn [buf size];
        rewrite length_app; cbn [length]; lia).
  cbn [isNil andb]. rewrite Nat.eqb_refl. cbn [negb Encoder.Dialects Encoder.setWriter].
  now rewrite (findCrcX_absent _ _ Habs).
Qed.

(** When the aborted frame does not fit the buffer, part of it reaches the
    sink during the failing call itself. *)
Example EncodePacket_unknown_partial_flush :
  let r := Encoder.EncodePacket smallEncoder unknownBigPacket in
  snd r = Some ErrUnknownMsgID
  /\ out (wr (Encoder.bw (fst r)))
     = [Byte.xfe; Byte.x14; Byte.x00; Byte.x01; Byte.x01; Byte.x07]
         ++ repeat Byte.xaa 10
  /\ buf (Encoder.bw (fst r)) = repeat Byte.xaa 10.
Proof. cbv zeta. split; [|split]; vm_compute; reflexivity. Qed.

(** C5 (the code departs from the claim).  The claim asks that no byte of a
    frame aborted by the registry check ever reaches the sink.  The call
    does fail with [ErrUnknownMsgID], writes nothing to the sink and leaves
    the counter alone, but the header and payload it had queued stay in the
    buffer: the next successful [EncodePacket] flushes them to the sink ahead
    of its own frame. *)
Theorem C5_aborted_frame_reaches_sink :
  let r1 := Encoder.EncodePacket sampleEncoder unknownPacket in
  let r2 := Encoder.EncodePacket (fst r1) samplePacket in
  snd r1 = Some ErrUnknownMsgID
  /\ Encoder.CurrSeqID (fst r1) = Encoder.CurrSeqID sampleEncoder
  /\ out (wr (Encoder.bw (fst r1))) = []
  /\ buf (Encoder.bw (fst r1))
     = [Byte.xfe; Byte.x01; Byte.x00; Byte.x01; Byte.x01; Byte.x07; Byte.xaa]
  /\ snd r2 = None
  /\ out (wr (Encoder.bw (fst r2)))
     = [Byte.xfe; Byte.x01; Byte.x00; Byte.x01; Byte.x01; Byte.x07; Byte.xaa]
         ++ sampleFrame.
Proof. repeat split; vm_compute; reflexivity. Qed.

(** ** The payload length *)


Lemma range_vis_length (s r : Slice.t) (lo hi : nat) :
  Slice.range s lo hi = Done r -> (length (Slice.vis r) <= hi - lo)%nat.
Proof.
  unfold Slice.range. destruct (_ && _); [|discriminate].
  intros [= <-]. cbn [Slice.vis]. rewrite length_firstn. lia.
Qed.






(** * Further properties of the codec *)

(** ** The 16-bit helpers *)

Lemma u16ToBytes_of_le16 (lo hi : byte) : u16ToBytes (le16 lo hi) = [lo; hi].
Proof.
  destruct (u16ToBytes_le16 (le16 lo hi) (le16_range lo hi))
    as (lo' & hi' & Hb & Hlo & Hhi & _).
  rewrite Hb. rewrite le16_add in Hlo, Hhi.
  pose proof (byte.unsigned_range lo) as Rlo.
  pose proof (byte.unsigned_range hi) as Rhi.
  change (2 ^ 8) with 256 in *.
  assert (Elo : byte.unsigned lo' = byte.unsigned lo).
  { rewrite Hlo, (Z.mul_comm 256), Z.mod_add by lia.
    apply Z.mod_small. lia. }
  assert (Ehi : byte.unsigned hi' = byte.unsigned hi).
  { rewrite Hhi, (Z.mul_comm 256), Z.div_add by lia.
    rewrite Z.div_small by lia. lia. }
  apply byte.unsigned_inj in Elo, Ehi. now subst.
Qed.

Lemma bytesToU16_short (p : Slice.t) :
  (Slice.len p < 2)%nat -> bytesToU16 p = Panic.
Proof.
  unfold bytesToU16, Slice.index, Slice.len.
  destruct (Slice.vis p) as [|a [|b rest]]; cbn; intros H; try reflexivity; lia.
Qed.

(** X1.  [bytesToU16] undoes [u16ToBytes] on every 16-bit value. *)
Theorem u16_roundtrip (v : Z) :
  0 <= v < 65536 ->
  bytesToU16 (Slice.of_list (u16ToBytes v)) = Done v.
Proof.
  intros Hv. destruct (u16ToBytes_le16 v Hv) as (lo & hi & Hb & _ & _ & Hle).
  rewrite Hb. cbn [bytesToU16 Slice.of_list Slice.index Slice.vis nth_error bind].
  fold (le16 lo hi). now rewrite Hle.
Qed.

Lemma u16_roundtrip_witness :
  0 <= 0xb4f0 < 65536
  /\ bytesToU16 (Slice.of_list (u16ToBytes 0xb4f0)) = Done 0xb4f0.
Proof.
  split; [lia|]. apply (u16_roundtrip 0xb4f0). lia.
Defined.

(** X2.  [u16ToBytes] undoes [bytesToU16]: the value read from two bytes (low
    byte first, whatever follows them in the slice) is written back as the
    same two bytes. *)
Theorem bytes_roundtrip (lo hi : byte) (rest spare : list byte) :
  exists v,
    bytesToU16 {| Slice.vis := lo :: hi :: rest; Slice.spare := spare |} = Done v
    /\ v = byte.unsigned lo + 256 * byte.unsigned hi
    /\ u16ToBytes v = [lo; hi].
Proof.
  exists (le16 lo hi). split; [reflexivity|]. split; [apply le16_add|].
  apply u16ToBytes_of_le16.
Qed.

(** X3.  [bytesToU16] panics exactly on slices of fewer than two bytes. *)
Theorem bytesToU16_panics_iff (p : Slice.t) :
  bytesToU16 p = Panic <-> (Slice.len p < 2)%nat.
Proof.
  unfold bytesToU16, Slice.index, Slice.len.
  destruct (Slice.vis p) as [|a [|b rest]]; cbn; split; intros H;
    try reflexivity; try lia; try discriminate.
Qed.

(** X4.  [newPacketFromBytes] panics exactly on slices of fewer than five bytes;
    on any other slice it returns the header fields in wire order, no
    payload, a zero checksum, and a payload length of at most 255. *)
Theorem newPacketFromBytes_spec (b : Slice.t) :
  match newPacketFromBytes b with
  | Panic => (Slice.len b < 5)%nat
  | Done (p, n) =>
      (5 <= Slice.len b)%nat
      /\ firstn 5 (Slice.vis b)
         = [byte.of_Z (Z.of_nat n); SeqID p; SysID p; CompID p; MsgID p]
      /\ Payload p = [] /\ Checksum p = 0 /\ (n <= 255)%nat
  end.
Proof.
  unfold newPacketFromBytes, Slice.index, Slice.len.
  destruct (Slice.vis b) as [|b0 [|b1 [|b2 [|b3 [|b4 rest]]]]]; cbn; try lia.
  pose proof (byte.unsigned_range b0) as R. change (2 ^ 8) with 256 in R.
  rewrite Z2Nat.id by lia. rewrite byte.of_Z_unsigned.
  repeat split; lia.
Qed.

(** ** The streaming decoder on every stream *)

Lemma split_start (l : list byte) :
  Forall (fun c => c <> startByte) l
  \/ exists g t, l = g ++ startByte :: t /\ Forall (fun c => c <> startByte) g.
Proof.
  induction l as [|c l IH]; [left; constructor|].
  destruct (Byte.byte_eq_dec c startByte) as [->|Hc].
  - right. exists [], l. split; [reflexivity|constructor].
  - destruct IH as [Hl|(g & t & -> & Hg)].
    + left. now constructor.
    + right. exists (c :: g), t. split; [reflexivity|now constructor].
Qed.

(** A stream either has no start byte, or ends within the five header
    bytes after it, or ends within the payload and checksum the header
    declares, or holds a whole frame. *)
Lemma stream_cases (l : list byte) :
  Forall (fun c => c <> startByte) l
  \/ (exists g part,
         l = g ++ startByte :: part
         /\ Forall (fun c => c <> startByte) g /\ (length part < 5)%nat)
  \/ (exists g b0 b1 b2 b3 b4 part,
         l = g ++ startByte :: b0 :: b1 :: b2 :: b3 :: b4 :: part
         /\ Forall (fun c => c <> startByte) g
         /\ (length part < Z.to_nat (byte.unsigned b0) + 2)%nat)
  \/ (exists g b0 b1 b2 b3 b4 payload c0 c1 rest,
         l = g ++ startByte :: b0 :: b1 :: b2 :: b3 :: b4
               :: payload ++ c0 :: c1 :: rest
         /\ Forall (fun c => c <> startByte) g
         /\ length payload = Z.to_nat (byte.unsigned b0)).
Proof.
  destruct (split_start l) as [Hl|(g & t & -> & Hg)]; [now left|].
  right.
  destruct t as [|b0 [|b1 [|b2 [|b3 [|b4 part]]]]];
    try (left; exists g; eexists; split; [reflexivity|split; [assumption|cbn; lia]]).
  right.
  set (n := Z.to_nat (byte.unsigned b0)).
  destruct (Nat.lt_ge_cases (length part) (n + 2)) as [Hlt|Hge].
  - left. exists g, b0, b1, b2, b3, b4, part. auto.
  - right.
    assert (Hsplit : part = firstn n part ++ skipn n part)
      by (symmetry; apply firstn_skipn).
    assert (Hlen : (length (skipn n part) >= 2)%nat) by (rewrite length_skipn; lia).
    destruct (skipn n part) as [|c0 [|c1 rest]]; cbn in Hlen; try lia.
    exists g, b0, b1, b2, b3, b4, (firstn n part), c0, c1, rest.
    split; [now rewrite <- Hsplit|]. split; [assumption|].
    rewrite length_firstn. lia.
Qed.

Lemma Decode_short_header (dec : Decoder.t) (g part : list byte) (e : error) :
  Forall (fun c => c <> startByte) g ->
  (length part < 5)%nat ->
  Decoder.br dec = {| pending := g ++ startByte :: part; fail := e |} ->
  Decoder.Decode dec
  = Done (Decoder.setReader dec {| pending := []; fail := e |}, None,
          Some (shortReadError part e)).
Proof.
  intros Hg Hlen Hbr. unfold Decoder.Decode. rewrite Hbr. cbn [pending fail].
  rewrite seekStart_garbage by assumption.
  unfold ReadFull. cbn [pending fail].
  replace ((5 <=? length part)%nat) with false
    by (symmetry; apply Nat.leb_gt; lia).
  unfold shortReadError. destruct part, e; reflexivity.
Qed.

Lemma Decode_short_payload (dec : Decoder.t) (g part : list byte)
      (l seq sys comp msgid : byte) (e : error) :
  Forall (fun c => c <> startByte) g ->
  (length part < Z.to_nat (byte.unsigned l) + 2)%nat ->
  Decoder.br dec = {| pending := g ++ startByte :: l :: seq :: sys :: comp
                                   :: msgid :: part;
                      fail := e |} ->
  Decoder.Decode dec
  = Done (Decoder.setReader dec {| pending := []; fail := e |},
          Some (headerPacket seq sys comp msgid [] 0),
          Some (shortReadError part e)).
Proof.
  intros Hg Hlen Hbr. unfold Decoder.Decode. rewrite Hbr. cbn [pending fail].
  rewrite seekStart_garbage by assumption.
  unfold ReadFull at 1. cbn [pending fail length Nat.leb firstn skipn].
  cbn [newPacketFromBytes Slice.of_list Slice.index Slice.vis nth_error bind fst snd].
  unfold ReadFull, numChecksumBytes. cbn [pending fail].
  replace ((Z.to_nat (byte.unsigned l) + 2 <=? length part)%nat) with false
    by (symmetry; apply Nat.leb_gt; lia).
  unfold shortReadError. destruct part, e; reflexivity.
Qed.

(** X5.  [Decode] never panics: the slices it indexes and re-slices are the
    buffers it has just filled. *)
Theorem Decode_never_panics (dec : Decoder.t) :
  exists r, Decoder.Decode dec = Done r.
Proof.
  destruct (Decoder.br dec) as [l e] eqn:Hbr.
  destruct (stream_cases l)
    as [Hl|[(g & part & -> & Hg & Hp)
           |[(g & b0 & b1 & b2 & b3 & b4 & part & -> & Hg & Hp)
            |(g & b0 & b1 & b2 & b3 & b4 & payload & c0 & c1 & rest & -> & Hg & Hp)]]].
  - unfold Decoder.Decode. rewrite Hbr. cbn [pending fail].
    rewrite (seekStart_no_start _ _ Hl). eauto.
  - rewrite (Decode_short_header dec g part e Hg Hp Hbr). eauto.
  - rewrite (Decode_short_payload dec g part b0 b1 b2 b3 b4 e Hg Hp Hbr). eauto.
  - rewrite (Decode_frame dec g payload rest b0 b1 b2 b3 b4 c0 c1 e Hg Hp Hbr).
    cbv zeta. destruct (findCrcX _ _); [destruct (_ =? _)|]; eauto.
Qed.

(** X6.  Whatever the stream, [Decode] keeps the registry and only consumes
    input.  It returns no error only together with a packet whose id is
    registered, whose payload has at most 255 bytes and whose checksum is
    the CRC of its header, payload and seed; what it has consumed is then
    some bytes without a start byte followed by exactly the frame that
    [EncodePacket] emits for that packet under its sequence id, and the
    decoder's sequence id is the packet's.  On every error the decoder's
    sequence id stays. *)
Theorem Decode_accepts_only_verified
        (dec dec' : Decoder.t) (q : option Packet) (err : option error) :
  Decoder.Decode dec = Done (dec', q, err) ->
  Decoder.Dialects dec' = Decoder.Dialects dec
  /\ fail (Decoder.br dec') = fail (Decoder.br dec)
  /\ (exists used, pending (Decoder.br dec) = used ++ pending (Decoder.br dec'))
  /\ match err with
     | Some _ => Decoder.CurrSeqID dec' = Decoder.CurrSeqID dec
     | None =>
         exists p crcx g,
           q = Some p
           /\ Decoder.CurrSeqID dec' = SeqID p
           /\ findCrcX (Decoder.Dialects dec) (MsgID p) = inl crcx
           /\ (length (Payload p) <= 255)%nat
           /\ Checksum p
              = checksumOf [byte.of_Z (Z.of_nat (length (Payload p))); SeqID p;
                            SysID p; CompID p; MsgID p] (Payload p) crcx
           /\ Forall (fun c => c <> startByte) g
           /\ pending (Decoder.br dec)
              = g ++ frameBytes (SeqID p) p crcx ++ pending (Decoder.br dec')
     end.
Proof.
  destruct (Decoder.br dec) as [l e] eqn:Hbr. cbn [pending fail].
  destruct (stream_cases l)
    as [Hl|[(g & part & -> & Hg & Hp)
           |[(g & b0 & b1 & b2 & b3 & b4 & part & -> & Hg & Hp)
            |(g & b0 & b1 & b2 & b3 & b4 & payload & c0 & c1 & rest & -> & Hg & Hp)]]].
  - unfold Decoder.Decode. rewrite Hbr. cbn [pending fail].
    rewrite (seekStart_no_start _ _ Hl). intros [= <- <- <-].
    cbn. repeat split. exists l. now rewrite app_nil_r.
  - rewrite (Decode_short_header dec g part e Hg Hp Hbr). intros [= <- <- <-].
    cbn. repeat split. eexists. now rewrite app_nil_r.
  - rewrite (Decode_short_payload dec g part b0 b1 b2 b3 b4 e Hg Hp Hbr).
    intros [= <- <- <-]. cbn. repeat split. eexists. now rewrite app_nil_r.
  - rewrite (Decode_frame dec g payload rest b0 b1 b2 b3 b4 c0 c1 e Hg Hp Hbr).
    cbv zeta.
    assert (Hused : exists used,
               g ++ startByte :: b0 :: b1 :: b2 :: b3 :: b4
                 :: payload ++ c0 :: c1 :: rest = used ++ rest).
    { exists (g ++ startByte :: b0 :: b1 :: b2 :: b3 :: b4 :: payload ++ [c0; c1]).
      rewrite <- app_assoc. cbn [app]. now rewrite <- app_assoc. }
    destruct (findCrcX (Decoder.Dialects dec) b4) as [crcx|e3] eqn:Hx.
    + destruct (Z.eqb_spec (le16 c0 c1)
                  (checksumOf [b0; b1; b2; b3; b4] payload crcx)) as [Heq|Hne];
        intros [= <- <- <-]; cbn; repeat split; try assumption.
      exists (headerPacket b1 b2 b3 b4 payload (le16 c0 c1)), crcx, g.
      unfold frameBytes.
      cbn [headerPacket SeqID SysID CompID MsgID Payload Checksum].
      pose proof (byte.unsigned_range b0) as R. change (2 ^ 8) with 256 in R.
      rewrite Hp, Z2Nat.id, byte.of_Z_unsigned by lia.
      rewrite <- Heq, u16ToBytes_of_le16.
      repeat split; try assumption; try lia.
      cbn [app]. now rewrite <- app_assoc.
    + intros [= <- <- <-]. cbn. repeat split; assumption.
Qed.

Lemma Decode_accepts_only_verified_witness :
  Decoder.Decode (sampleDecoder (Byte.x11 :: sampleFrame ++ [Byte.x22]))
  = Done (Decoder.setSeqID
            (Decoder.setReader (sampleDecoder [])
               {| pending := [Byte.x22]; fail := EOF |}) Byte.x00,
          Some (headerPacket Byte.x00 Byte.x01 Byte.x01 Byte.x00 [] 0x5c86), None)
  /\ Decoder.Dialects
       (Decoder.setSeqID
          (Decoder.setReader (sampleDecoder [])
             {| pending := [Byte.x22]; fail := EOF |}) Byte.x00)
     = Decoder.Dialects (sampleDecoder (Byte.x11 :: sampleFrame ++ [Byte.x22]))
  /\ EOF = EOF
  /\ (exists used, Byte.x11 :: sampleFrame ++ [Byte.x22] = used ++ [Byte.x22])
  /\ exists p crcx g,
      Some (headerPacket Byte.x00 Byte.x01 Byte.x01 Byte.x00 [] 0x5c86) = Some p
      /\ Byte.x00 = SeqID p
      /\ findCrcX [sampleDialect] (MsgID p) = inl crcx
      /\ (length (Payload p) <= 255)%nat
      /\ Checksum p
         = checksumOf [byte.of_Z (Z.of_nat (length (Payload p))); SeqID p;
                       SysID p; CompID p; MsgID p] (Payload p) crcx
      /\ Forall (fun c => c <> startByte) g
      /\ Byte.x11 :: sampleFrame ++ [Byte.x22]
         = g ++ frameBytes (SeqID p) p crcx ++ [Byte.x22].
Proof.
  assert (H : Decoder.Decode (sampleDecoder (Byte.x11 :: sampleFrame ++ [Byte.x22]))
              = Done (Decoder.setSeqID
                        (Decoder.setReader (sampleDecoder [])
                           {| pending := [Byte.x22]; fail := EOF |}) Byte.x00,
                      Some (headerPacket Byte.x00 Byte.x01 Byte.x01 Byte.x00 [] 0x5c86),
                      None)) by (vm_compute; reflexivity).
  split; [exact H|].
  exact (Decode_accepts_only_verified _ _ _ _ H).
Defined.

(** X7.  A stream that ends inside a frame.  When it ends within the five header
    bytes, [Decode] returns the read error and no packet; when it ends
    within the payload and checksum that the header declares, [Decode]
    returns the read error together with a packet that has the header
    fields but no payload and no checksum.  The read error is the source's
    own ([EOF] at a clean end) if nothing was left to read, and
    [ErrUnexpectedEOF] if the source ended cleanly after some of the bytes.
    The decoder's sequence id stays and the stream is used up. *)
Theorem Decode_truncated_stream
        (dec : Decoder.t) (g part1 part2 : list byte)
        (l seq sys comp msgid : byte) (e : error) :
  Forall (fun c => c <> startByte) g ->
  (length part1 < 5)%nat ->
  (length part2 < Z.to_nat (byte.unsigned l) + 2)%nat ->
  let drained := Decoder.setReader dec {| pending := []; fail := e |} in
  Decoder.Decode
    (Decoder.setReader dec {| pending := g ++ startByte :: part1; fail := e |})
  = Done (drained, None, Some (shortReadError part1 e))
  /\ Decoder.Decode
       (Decoder.setReader dec
          {| pending := g ++ startByte :: l :: seq :: sys :: comp :: msgid :: part2;
             fail := e |})
     = Done (drained,
             Some {| SeqID := seq; SysID := sys; CompID := comp; MsgID := msgid;
                     Payload := []; Checksum := 0 |},
             Some (shortReadError part2 e)).
Proof.
  intros Hg H1 H2 drained. split.
  - now rewrite (Decode_short_header
                   (Decoder.setReader dec
                      {| pending := g ++ startByte :: part1; fail := e |})
                   g part1 e Hg H1 eq_refl).
  - now rewrite (Decode_short_payload
                   (Decoder.setReader dec
                      {| pending := g ++ startByte :: l :: seq :: sys :: comp
                                      :: msgid :: part2;
                         fail := e |})
                   g part2 l seq sys comp msgid e Hg H2 eq_refl).
Qed.

Lemma Decode_truncated_stream_witness :
  Forall (fun c => c <> startByte) [Byte.x11]
  /\ (length (@nil byte) < 5)%nat
  /\ (length [Byte.xaa; Byte.xbb] < Z.to_nat (byte.unsigned Byte.x03) + 2)%nat
  /\ Decoder.Decode
       (Decoder.setReader (sampleDecoder [])
          {| pending := [Byte.x11] ++ startByte :: []; fail := EOF |})
     = Done (Decoder.setReader (sampleDecoder []) {| pending := []; fail := EOF |},
             None, Some (shortReadError [] EOF))
  /\ Decoder.Decode
       (Decoder.setReader (sampleDecoder [])
          {| pending := [Byte.x11] ++ startByte :: Byte.x03 :: Byte.x05 :: Byte.x01
                          :: Byte.x02 :: Byte.x01 :: [Byte.xaa; Byte.xbb];
             fail := EOF |})
     = Done (Decoder.setReader (sampleDecoder []) {| pending := []; fail := EOF |},
             Some {| SeqID := Byte.x05; SysID := Byte.x01; CompID := Byte.x02;
                     MsgID := Byte.x01; Payload := []; Checksum := 0 |},
             Some (shortReadError [Byte.xaa; Byte.xbb] EOF)).
Proof.
  assert (Hg : Forall (fun c => c <> startByte) [Byte.x11])
    by (repeat constructor; discriminate).
  assert (H1 : (length (@nil byte) < 5)%nat) by (cbn; lia).
  assert (H2 : (length [Byte.xaa; Byte.xbb]
                < Z.to_nat (byte.unsigned Byte.x03) + 2)%nat) by (vm_compute; lia).
  split; [exact Hg|split; [exact H1|split; [exact H2|]]].
  apply (Decode_truncated_stream (sampleDecoder []) [Byte.x11] [] [Byte.xaa; Byte.xbb]
           Byte.x03 Byte.x05 Byte.x01 Byte.x02 Byte.x01 EOF Hg H1 H2).
Defined.

(** The two read errors of the example: a clean end right after the start
    byte is [EOF], a clean end inside the payload is [ErrUnexpectedEOF]. *)
Example shortReadError_examples :
  shortReadError [] EOF = EOF
  /\ shortReadError [Byte.xaa; Byte.xbb] EOF = ErrUnexpectedEOF
  /\ shortReadError [Byte.xaa] ErrIO = ErrIO.
Proof. repeat split. Qed.

(** X8.  [Decode] accepts a whole frame with a registered id exactly when its two
    trailing bytes are the little-endian bytes of the CRC of header, payload
    and seed: every other trailer is rejected. *)
Theorem Decode_accepts_one_trailer
        (dec : Decoder.t) (g payload rest : list byte)
        (l seq sys comp msgid c0 c1 crcx : byte) (e : error) :
  Forall (fun c => c <> startByte) g ->
  length payload = Z.to_nat (byte.unsigned l) ->
  findCrcX (Decoder.Dialects dec) msgid = inl crcx ->
  (exists dec' q,
      Decoder.Decode
        (Decoder.setReader dec
           {| pending := g ++ startByte :: l :: seq :: sys :: comp :: msgid
                           :: payload ++ c0 :: c1 :: rest;
              fail := e |})
      = Done (dec', q, None))
  <-> [c0; c1] = u16ToBytes (checksumOf [l; seq; sys; comp; msgid] payload crcx).
Proof.
  intros Hg Hlen Hx.
  rewrite (Decode_frame _ g payload rest l seq sys comp msgid c0 c1 e Hg Hlen)
    by reflexivity.
  cbn [Decoder.setReader Decoder.Dialects]. rewrite Hx. cbv zeta.
  destruct (Z.eqb_spec (le16 c0 c1) (checksumOf [l; seq; sys; comp; msgid] payload crcx))
    as [Heq|Hne].
  - split; [intros _|eauto]. now rewrite <- Heq, u16ToBytes_of_le16.
  - split; [intros (dec' & q & [=])|].
    intros Hb. exfalso. apply Hne.
    destruct (u16ToBytes_le16 _ (checksumOf_u16 [l; seq; sys; comp; msgid] payload crcx))
      as (lo & hi & Hb' & _ & _ & Hle).
    rewrite Hb' in Hb. injection Hb as -> ->. exact Hle.
Qed.

Lemma Decode_accepts_one_trailer_witness :
  Forall (fun c => c <> startByte) [Byte.x11]
  /\ length [Byte.x10; Byte.x20; Byte.xfe] = Z.to_nat (byte.unsigned Byte.x03)
  /\ findCrcX (Decoder.Dialects (sampleDecoder [])) Byte.x01 = inl Byte.x7c
  /\ ((exists dec' q,
          Decoder.Decode
            (Decoder.setReader (sampleDecoder [])
               {| pending := [Byte.x11] ++ startByte :: Byte.x03 :: Byte.x00
                               :: Byte.x03 :: Byte.x04 :: Byte.x01
                               :: [Byte.x10; Byte.x20; Byte.xfe]
                               ++ Byte.xf0 :: Byte.xb5 :: [];
                  fail := EOF |})
          = Done (dec', q, None))
      <-> [Byte.xf0; Byte.xb5]
          = u16ToBytes (checksumOf [Byte.x03; Byte.x00; Byte.x03; Byte.x04; Byte.x01]
                          [Byte.x10; Byte.x20; Byte.xfe] Byte.x7c)).
Proof.
  assert (Hg : Forall (fun c => c <> startByte) [Byte.x11])
    by (repeat constructor; discriminate).
  split; [exact Hg|split; [reflexivity|split; [reflexivity|]]].
  apply (Decode_accepts_one_trailer (sampleDecoder []) [Byte.x11]
           [Byte.x10; Byte.x20; Byte.xfe] [] Byte.x03 Byte.x00 Byte.x03 Byte.x04
           Byte.x01 Byte.xf0 Byte.xb5 Byte.x7c EOF Hg eq_refl eq_refl).
Defined.

(** ** A stream of frames *)

Lemma Decode_frameBytes (dec : Decoder.t) (seq : byte) (p : Packet) (crcx : byte)
      (rest : list byte) (e : error) :
  (length (Payload p) <= 255)%nat ->
  findCrcX (Decoder.Dialects dec) (MsgID p) = inl crcx ->
  Decoder.br dec = {| pending := frameBytes seq p crcx ++ rest; fail := e |} ->
  Decoder.Decode dec
  = Done (Decoder.setSeqID (Decoder.setReader dec {| pending := rest; fail := e |}) seq,
          Some (received seq p crcx), None).
Proof.
  intros Hlen Hx Hbr.
  set (l := byte.of_Z (Z.of_nat (length (Payload p)))).
  set (hdr5 := [l; seq; SysID p; CompID p; MsgID p]).
  destruct (u16ToBytes_le16 (checksumOf hdr5 (Payload p) crcx)
              (checksumOf_u16 _ _ _)) as (lo & hi & Hbytes & _ & _ & Hle).
  assert (Hl : length (Payload p) = Z.to_nat (byte.unsigned l)).
  { unfold l. rewrite byte_unsigned_of_nat by assumption. now rewrite Nat2Z.id. }
  assert (Hfr : frameBytes seq p crcx ++ rest
                = [] ++ startByte :: l :: seq :: SysID p :: CompID p
                    :: MsgID p :: Payload p ++ lo :: hi :: rest).
  { unfold frameBytes. fold l. fold hdr5. rewrite Hbytes.
    unfold hdr5. cbn [app]. now rewrite <- app_assoc. }
  rewrite Hfr in Hbr.
  rewrite (Decode_frame dec [] (Payload p) rest l seq (SysID p) (CompID p) (MsgID p)
             lo hi e (Forall_nil _) Hl Hbr).
  rewrite Hx. cbv zeta. fold hdr5. rewrite Hle, Z.eqb_refl. reflexivity.
Qed.

Lemma DecodeN_frames (dsE dsD : DialectSlice) (ps : list Packet) :
  forall (s : Z) (dec : Decoder.t) (rest : list byte) (e : error),
    Decoder.Dialects dec = dsD ->
    Forall (fun p => (length (Payload p) <= 255)%nat) ps ->
    Forall (fun p => exists c, findCrcX dsE (MsgID p) = inl c
                               /\ findCrcX dsD (MsgID p) = inl c) ps ->
    Decoder.br dec = {| pending := concat (framesFrom dsE s ps) ++ rest; fail := e |} ->
    exists dec',
      DecodeN (length ps) dec = Done (dec', receivedFrom dsE s ps)
      /\ Decoder.br dec' = {| pending := rest; fail := e |}
      /\ Decoder.Dialects dec' = dsD.
Proof.
  induction ps as [|p ps IH]; intros s dec rest e Hds Hlen Hreg Hbr.
  - exists dec. cbn in *. auto.
  - inversion Hlen as [|? ? Hp Hps]; subst.
    inversion Hreg as [|? ? (c & HcE & HcD) Hregs]; subst.
    cbn [framesFrom concat length DecodeN receivedFrom] in *.
    unfold crcxOf in *. rewrite HcE in *.
    rewrite <- app_assoc in Hbr.
    rewrite (Decode_frameBytes dec (byte.of_Z s) p c _ e Hp HcD Hbr).
    cbn [bind fst snd].
    destruct (IH (s + 1)
                (Decoder.setSeqID
                   (Decoder.setReader dec
                      {| pending := concat (framesFrom dsE (s + 1) ps) ++ rest;
                         fail := e |}) (byte.of_Z s))
                rest e eq_refl Hps Hregs eq_refl) as (dec' & Hn & Hbr' & Hds').
    rewrite Hn. cbn [bind fst snd]. exists dec'. auto.
Qed.

Lemma EncodeAll_registered (ps : list Packet) :
  forall (enc enc' : Encoder.t) (errs : list (option error)),
    buf (Encoder.bw enc) = [] ->
    EncodeAll enc ps = (enc', errs) ->
    Forall (fun err => err = None) errs ->
    buf (Encoder.bw enc') = []
    /\ Forall (fun p => exists c, findCrcX (Encoder.Dialects enc) (MsgID p) = inl c) ps.
Proof.
  induction ps as [|p ps IH]; intros enc enc' errs Hbuf; cbn [EncodeAll].
  - intros [= <- <-] _. now split.
  - destruct (Encoder.EncodePacket enc p) as [enc1 err] eqn:H1.
    destruct (EncodeAll enc1 ps) as [enc2 errs2] eqn:H2.
    intros [= <- <-] Hall. inversion Hall as [|? ? Herr Hrest]; subst.
    apply EncodePacket_nil in H1.
    destruct H1 as (crcx & Hx & _ & Hds & Hb1 & _).
    destruct (IH enc1 enc2 errs2 Hb1 H2 Hrest) as [Hb2 Hreg].
    split; [assumption|]. constructor; [eauto|]. now rewrite <- Hds.
Qed.

(** X9.  What a fresh encoder sends in a run of successful calls, a decoder whose
    registry resolves the ids alike reads back packet by packet: as many
    [Decode] calls as packets return, in order and without error, the
    packets with their system id, component id, message id and payload,
    numbered from the encoder's counter, and leave the rest of the stream
    untouched. *)
Theorem stream_roundtrip
        (enc enc' : Encoder.t) (dec : Decoder.t) (ps : list Packet)
        (errs : list (option error)) (rest : list byte) (e : error) :
  out (wr (Encoder.bw enc)) = [] ->
  buf (Encoder.bw enc) = [] ->
  Forall (fun p => (length (Payload p) <= 255)%nat) ps ->
  Forall (fun p => findCrcX (Decoder.Dialects dec) (MsgID p)
                   = findCrcX (Encoder.Dialects enc) (MsgID p)) ps ->
  EncodeAll enc ps = (enc', errs) ->
  Forall (fun err => err = None) errs ->
  exists dec',
    DecodeN (length ps)
      (Decoder.setReader dec
         {| pending := out (wr (Encoder.bw enc')) ++ rest; fail := e |})
    = Done (dec', receivedFrom (Encoder.Dialects enc)
                    (byte.unsigned (Encoder.CurrSeqID enc)) ps)
    /\ Decoder.br dec' = {| pending := rest; fail := e |}.
Proof.
  intros Hout Hbuf Hlen Hsame Hrun Hall.
  destruct (EncodeAll_registered ps enc enc' errs Hbuf Hrun Hall) as [Hb' Hreg].
  destruct (EncodeAll_nil ps enc enc' errs (byte.unsigned (Encoder.CurrSeqID enc))
              (eq_sym (byte.of_Z_unsigned _)) Hrun Hall) as [Hsent _].
  rewrite Hb', Hout, Hbuf, app_nil_r in Hsent. cbn [app] in Hsent.
  rewrite Hsent.
  destruct (DecodeN_frames (Encoder.Dialects enc) (Decoder.Dialects dec) ps
              (byte.unsigned (Encoder.CurrSeqID enc))
              (Decoder.setReader dec
                 {| pending := concat (framesFrom (Encoder.Dialects enc)
                                         (byte.unsigned (Encoder.CurrSeqID enc)) ps)
                                 ++ rest;
                    fail := e |})
              rest e eq_refl Hlen) as (dec' & Hn & Hbr & _); [|reflexivity|eauto].
  rewrite Forall_forall in *. intros p Hp.
  destruct (Hreg p Hp) as [c Hc]. exists c. split; [assumption|].
  now rewrite (Hsame p Hp).
Qed.

Lemma stream_roundtrip_witness :
  out (wr (Encoder.bw wrapEncoder)) = []
  /\ buf (Encoder.bw wrapEncoder) = []
  /\ Forall (fun p => (length (Payload p) <= 255)%nat) [samplePacket; dataPacket]
  /\ Forall (fun p => findCrcX (Decoder.Dialects (sampleDecoder [])) (MsgID p)
                      = findCrcX (Encoder.Dialects wrapEncoder) (MsgID p))
       [samplePacket; dataPacket]
  /\ EncodeAll wrapEncoder [samplePacket; dataPacket]
     = (fst (EncodeAll wrapEncoder [samplePacket; dataPacket]), [None; None])
  /\ Forall (fun err => err = None) [@None error; None]
  /\ exists dec',
      DecodeN (length [samplePacket; dataPacket])
        (Decoder.setReader (sampleDecoder [])
           {| pending := out (wr (Encoder.bw
                                    (fst (EncodeAll wrapEncoder
                                            [samplePacket; dataPacket]))))
                           ++ [Byte.x99];
              fail := EOF |})
      = Done (dec', receivedFrom (Encoder.Dialects wrapEncoder)
                      (byte.unsigned (Encoder.CurrSeqID wrapEncoder))
                      [samplePacket; dataPacket])
      /\ Decoder.br dec' = {| pending := [Byte.x99]; fail := EOF |}.
Proof.
  assert (Hlen : Forall (fun p => (length (Payload p) <= 255)%nat)
                   [samplePacket; dataPacket])
    by (repeat constructor; cbn; lia).
  assert (Hsame : Forall (fun p => findCrcX (Decoder.Dialects (sampleDecoder []))
                                     (MsgID p)
                                   = findCrcX (Encoder.Dialects wrapEncoder) (MsgID p))
                    [samplePacket; dataPacket]) by (repeat constructor).
  assert (Hrun : EncodeAll wrapEncoder [samplePacket; dataPacket]
                 = (fst (EncodeAll wrapEncoder [samplePacket; dataPacket]),
                    [None; None])) by (vm_compute; reflexivity).
  assert (Hall : Forall (fun err => err = None) [@None error; None])
    by (repeat constructor).
  split; [reflexivity|split; [reflexivity|split; [exact Hlen|split; [exact Hsame|]]]].
  split; [exact Hrun|split; [exact Hall|]].
  apply (stream_roundtrip wrapEncoder _ (sampleDecoder []) [samplePacket; dataPacket]
           [None; None] [Byte.x99] EOF eq_refl eq_refl Hlen Hsame Hrun Hall).
Defined.

(** ** The buffer decoder on every buffer *)

(** X10.  On a whole frame the two decoders agree: [DecodeBytes] on a buffer that
    begins with the frame and [Decode] on a stream that begins with it return
    the same packet and the same error and leave the same sequence id. *)
Theorem DecodeBytes_agrees_with_Decode
        (dec : Decoder.t) (payload rest trailing spare : list byte)
        (l seq sys comp msgid c0 c1 : byte) (e : error) :
  length payload = Z.to_nat (byte.unsigned l) ->
  let frame := startByte :: l :: seq :: sys :: comp :: msgid
                 :: payload ++ [c0; c1] in
  exists dec1 dec2 q err,
    Decoder.Decode (Decoder.setReader dec {| pending := frame ++ rest; fail := e |})
    = Done (dec1, q, err)
    /\ Decoder.DecodeBytes dec
         {| Slice.vis := frame ++ trailing; Slice.spare := spare |}
       = Done (dec2, q, err)
    /\ Decoder.CurrSeqID dec1 = Decoder.CurrSeqID dec2
    /\ Decoder.br dec1 = {| pending := rest; fail := e |}
    /\ Decoder.br dec2 = Decoder.br dec.
Proof.
  intros Hlen frame.
  assert (Hs : forall t, frame ++ t
                         = startByte :: l :: seq :: sys :: comp :: msgid
                             :: payload ++ c0 :: c1 :: t)
    by (intros t; unfold frame; cbn [app]; now rewrite <- app_assoc).
  rewrite !Hs.
  rewrite (Decode_frame _ [] payload rest l seq sys comp msgid c0 c1 e
             (Forall_nil _) Hlen) by reflexivity.
  rewrite (DecodeBytes_frame dec payload trailing spare l seq sys comp msgid c0 c1 Hlen).
  cbn [Decoder.setReader Decoder.Dialects]. cbv zeta.
  destruct (findCrcX (Decoder.Dialects dec) msgid) as [crcx|e3];
    [destruct (le16 c0 c1 =? _)|]; eexists _, _, _, _; repeat split.
Qed.

Lemma DecodeBytes_agrees_with_Decode_witness :
  length [Byte.x10; Byte.x20; Byte.xfe] = Z.to_nat (byte.unsigned Byte.x03)
  /\ exists dec1 dec2 q err,
      Decoder.Decode
        (Decoder.setReader (sampleDecoder [])
           {| pending := (startByte :: Byte.x03 :: Byte.x00 :: Byte.x03 :: Byte.x04
                            :: Byte.x01 :: [Byte.x10; Byte.x20; Byte.xfe]
                            ++ [Byte.xf0; Byte.xb4]) ++ [Byte.x01];
              fail := EOF |})
      = Done (dec1, q, err)
      /\ Decoder.DecodeBytes (sampleDecoder [])
           {| Slice.vis := (startByte :: Byte.x03 :: Byte.x00 :: Byte.x03 :: Byte.x04
                              :: Byte.x01 :: [Byte.x10; Byte.x20; Byte.xfe]
                              ++ [Byte.xf0; Byte.xb4]) ++ [Byte.x02; Byte.x03];
              Slice.spare := [Byte.x04] |}
         = Done (dec2, q, err)
      /\ Decoder.CurrSeqID dec1 = Decoder.CurrSeqID dec2
      /\ Decoder.br dec1 = {| pending := [Byte.x01]; fail := EOF |}
      /\ Decoder.br dec2 = Decoder.br (sampleDecoder []).
Proof.
  split; [reflexivity|].
  apply (DecodeBytes_agrees_with_Decode (sampleDecoder [])
           [Byte.x10; Byte.x20; Byte.xfe] [Byte.x01] [Byte.x02; Byte.x03] [Byte.x04]
           Byte.x03 Byte.x00 Byte.x03 Byte.x04 Byte.x01 Byte.xf0 Byte.xb4 EOF eq_refl).
Defined.

(** A buffer that passes the guard of [DecodeBytes] but ends before the two
    checksum bytes that its header announces: the call panics, unless the
    id is unregistered and the backing array reaches to the end of the
    declared payload, in which case it returns the registry's error. *)
Lemma DecodeBytes_short_frame (dec : Decoder.t) (l seq sys comp msgid : byte)
      (rest spare : list byte) :
  (length rest < Z.to_nat (byte.unsigned l) + 2)%nat ->
  let b := {| Slice.vis := startByte :: l :: seq :: sys :: comp :: msgid :: rest;
              Slice.spare := spare |} in
  Decoder.DecodeBytes dec b = Panic
  \/ exists p err,
      findCrcX (Decoder.Dialects dec) msgid = inr err
      /\ Decoder.DecodeBytes dec b = Done (dec, Some p, Some err).
Proof.
  intros Hlen b.
  unfold Decoder.DecodeBytes.
  replace ((Slice.len b <? hdrLen)%nat) with false by reflexivity.
  replace (Slice.index b 0) with (Done startByte) by reflexivity.
  cbn [bind]. rewrite byte_eqb_refl. cbn [negb].
  pose proof (from_split b [startByte] (l :: seq :: sys :: comp :: msgid :: rest)
                eq_refl) as H1.
  cbn [length] in H1. rewrite H1. clear H1.
  cbn [bind newPacketFromBytes Slice.index Slice.vis nth_error fst snd].
  set (n := Z.to_nat (byte.unsigned l)) in *.
  destruct (Slice.range b hdrLen (hdrLen + n)) as [|pl]; [now left|].
  cbn [bind]. destruct (Slice.range b 1 (hdrLen + n)) as [|body]; [now left|].
  cbn [bind setPayload MsgID].
  destruct (findCrcX (Decoder.Dialects dec) msgid) as [crcx|err]; [|right; eauto].
  left. destruct (Slice.from b (hdrLen + n)) as [|tl0] eqn:Ht; [reflexivity|].
  cbn [bind]. rewrite bytesToU16_short; [reflexivity|].
  apply range_vis_length in Ht. unfold Slice.len in *. cbn [Slice.vis b length] in Ht.
  unfold hdrLen in Ht. lia.
Qed.

(** A buffer either fails the guard, or passes it and ends before the end
    of the checksum its header announces, or begins with a whole frame. *)
Lemma buffer_cases (b : Slice.t) :
  (Slice.len b < hdrLen)%nat
  \/ (exists c rest, Slice.vis b = c :: rest /\ c <> startByte)
  \/ (exists l seq sys comp msgid rest,
         Slice.vis b = startByte :: l :: seq :: sys :: comp :: msgid :: rest
         /\ (length rest < Z.to_nat (byte.unsigned l) + 2)%nat)
  \/ (exists l seq sys comp msgid payload c0 c1 trailing,
         Slice.vis b = startByte :: l :: seq :: sys :: comp :: msgid
                         :: payload ++ c0 :: c1 :: trailing
         /\ length payload = Z.to_nat (byte.unsigned l)).
Proof.
  unfold Slice.len, hdrLen.
  destruct (Slice.vis b) as [|c [|l [|seq [|sys [|comp [|msgid rest]]]]]];
    try (left; cbn; lia).
  right. destruct (Byte.byte_eq_dec c startByte) as [->|Hc]; [|left; eauto].
  right.
  set (n := Z.to_nat (byte.unsigned l)).
  destruct (Nat.lt_ge_cases (length rest) (n + 2)) as [Hlt|Hge].
  - left. exists l, seq, sys, comp, msgid, rest. auto.
  - right.
    assert (Hsplit : rest = firstn n rest ++ skipn n rest)
      by (symmetry; apply firstn_skipn).
    assert (Hlen : (length (skipn n rest) >= 2)%nat) by (rewrite length_skipn; lia).
    destruct (skipn n rest) as [|c0 [|c1 trailing]]; cbn in Hlen; try lia.
    exists l, seq, sys, comp, msgid, (firstn n rest), c0, c1, trailing.
    split; [now rewrite <- Hsplit|]. rewrite length_firstn. lia.
Qed.

(** X11.  Whatever the buffer, a [DecodeBytes] that returns never touches the
    reader or the registry.  It returns no error only together with a packet
    whose id is registered, whose payload has at most 255 bytes and whose
    checksum is the CRC of header, payload and seed; the buffer then begins
    with exactly the frame that [EncodePacket] emits for that packet under
    its sequence id, and the decoder's sequence id is the packet's.  On
    every error the decoder is unchanged. *)
Theorem DecodeBytes_accepts_only_verified
        (dec dec' : Decoder.t) (b : Slice.t) (q : option Packet) (err : option error) :
  Decoder.DecodeBytes dec b = Done (dec', q, err) ->
  Decoder.Dialects dec' = Decoder.Dialects dec
  /\ Decoder.br dec' = Decoder.br dec
  /\ match err with
     | Some _ => dec' = dec
     | None =>
         exists p crcx trailing,
           q = Some p
           /\ Decoder.CurrSeqID dec' = SeqID p
           /\ findCrcX (Decoder.Dialects dec) (MsgID p) = inl crcx
           /\ (length (Payload p) <= 255)%nat
           /\ Checksum p
              = checksumOf [byte.of_Z (Z.of_nat (length (Payload p))); SeqID p;
                            SysID p; CompID p; MsgID p] (Payload p) crcx
           /\ Slice.vis b = frameBytes (SeqID p) p crcx ++ trailing
     end.
Proof.
  destruct (buffer_cases b)
    as [Hs|[(c & rest & Hv & Hc)
           |[(l & seq & sys & comp & msgid & rest & Hv & Hr)
            |(l & seq & sys & comp & msgid & payload & c0 & c1 & trailing & Hv & Hp)]]].
  - rewrite (DecodeBytes_short dec b Hs). intros [= <- <- <-]. auto.
  - destruct b as [v sp]. cbn [Slice.vis] in Hv. subst v.
    rewrite (DecodeBytes_no_start dec c rest sp Hc). intros [= <- <- <-]. auto.
  - destruct b as [v sp]. cbn [Slice.vis] in Hv. subst v.
    destruct (DecodeBytes_short_frame dec l seq sys comp msgid rest sp Hr)
      as [Hpanic|(p & e & _ & Hd)].
    + rewrite Hpanic. discriminate.
    + rewrite Hd. intros [= <- <- <-]. auto.
  - destruct b as [v sp]. cbn [Slice.vis] in Hv. subst v.
    rewrite (DecodeBytes_frame dec payload trailing sp l seq sys comp msgid c0 c1 Hp).
    cbn [Slice.vis]. cbv zeta.
    destruct (findCrcX (Decoder.Dialects dec) msgid) as [crcx|e3] eqn:Hx.
    + destruct (Z.eqb_spec (le16 c0 c1)
                  (checksumOf [l; seq; sys; comp; msgid] payload crcx)) as [Heq|Hne];
        intros [= <- <- <-]; [|auto].
      split; [reflexivity|]. split; [reflexivity|].
      exists (headerPacket seq sys comp msgid payload (le16 c0 c1)), crcx, trailing.
      unfold frameBytes.
      cbn [headerPacket SeqID SysID CompID MsgID Payload Checksum Decoder.setSeqID
           Decoder.CurrSeqID].
      pose proof (byte.unsigned_range l) as R. change (2 ^ 8) with 256 in R.
      rewrite Hp, Z2Nat.id, byte.of_Z_unsigned by lia.
      rewrite <- Heq, u16ToBytes_of_le16.
      repeat split; try assumption; try lia.
      cbn [app]. now rewrite <- app_assoc.
    + intros [= <- <- <-]. auto.
Qed.

Lemma DecodeBytes_accepts_only_verified_witness :
  Decoder.DecodeBytes (sampleDecoder [])
    {| Slice.vis := sampleFrame ++ [Byte.x22]; Slice.spare := [Byte.x33] |}
  = Done (Decoder.setSeqID (sampleDecoder []) Byte.x00,
          Some (headerPacket Byte.x00 Byte.x01 Byte.x01 Byte.x00 [] 0x5c86), None)
  /\ Decoder.Dialects (Decoder.setSeqID (sampleDecoder []) Byte.x00)
     = Decoder.Dialects (sampleDecoder [])
  /\ Decoder.br (Decoder.setSeqID (sampleDecoder []) Byte.x00)
     = Decoder.br (sampleDecoder [])
  /\ exists p crcx trailing,
      Some (headerPacket Byte.x00 Byte.x01 Byte.x01 Byte.x00 [] 0x5c86) = Some p
      /\ Byte.x00 = SeqID p
      /\ findCrcX [sampleDialect] (MsgID p) = inl crcx
      /\ (length (Payload p) <= 255)%nat
      /\ Checksum p
         = checksumOf [byte.of_Z (Z.of_nat (length (Payload p))); SeqID p;
                       SysID p; CompID p; MsgID p] (Payload p) crcx
      /\ sampleFrame ++ [Byte.x22] = frameBytes (SeqID p) p crcx ++ trailing.
Proof.
  assert (H : Decoder.DecodeBytes (sampleDecoder [])
                {| Slice.vis := sampleFrame ++ [Byte.x22]; Slice.spare := [Byte.x33] |}
              = Done (Decoder.setSeqID (sampleDecoder []) Byte.x00,
                      Some (headerPacket Byte.x00 Byte.x01 Byte.x01 Byte.x00 [] 0x5c86),
                      None)) by (vm_compute; reflexivity).
  split; [exact H|].
  exact (DecodeBytes_accepts_only_verified _ _ _ _ _ H).
Defined.



(** In the example the payload handed back is the one byte of the buffer
    followed by a stale byte of the backing array. *)
Example DecodeBytes_truncated_stale_payload :
  Decoder.DecodeBytes (sampleDecoder [])
    {| Slice.vis := startByte :: Byte.x02 :: Byte.x00 :: Byte.x01 :: Byte.x01
                      :: Byte.x07 :: [Byte.xaa];
       Slice.spare := [Byte.x55; Byte.x66] |}
  = Done (sampleDecoder [],
          Some (headerPacket Byte.x00 Byte.x01 Byte.x01 Byte.x07
                  [Byte.xaa; Byte.x55] 0),
          Some ErrUnknownMsgID).
Proof. vm_compute. reflexivity. Qed.

(** ** The encoder and its writer *)

Lemma writeAndCheck_Write (enc : Encoder.t) (p : list byte) :
  Encoder.writeAndCheck enc p
  = (Encoder.setWriter enc (fst (fst (Write (Encoder.bw enc) p))),
     snd (Write (Encoder.bw enc) p)).
Proof.
  unfold Encoder.writeAndCheck.
  destruct (Write (Encoder.bw enc) p) as [[w n] [e|]] eqn:Hw; cbn; [reflexivity|].
  apply Write_nil in Hw. destruct Hw as (_ & _ & -> & _).
  now rewrite Nat.eqb_refl.
Qed.

(** X13.  The length check of [writeAndCheck] never fires: the buffered writer
    reports every byte written whenever it reports no error, so
    [writeAndCheck] returns exactly the writer's own error, and
    [ErrShortWrite] only if the writer itself reports it. *)
Theorem writeAndCheck_is_Write (enc : Encoder.t) (p : list byte) :
  snd (Encoder.writeAndCheck enc p) = snd (Write (Encoder.bw enc) p)
  /\ Encoder.bw (fst (Encoder.writeAndCheck enc p))
     = fst (fst (Write (Encoder.bw enc) p))
  /\ match snd (Write (Encoder.bw enc) p) with
     | None => snd (fst (Write (Encoder.bw enc) p)) = length p
     | Some _ => True
     end.
Proof.
  unfold Encoder.writeAndCheck.
  destruct (Write (Encoder.bw enc) p) as [[w n] [e|]] eqn:Hw; cbn; [auto|].
  apply Write_nil in Hw. destruct Hw as (_ & _ & -> & _).
  now rewrite Nat.eqb_refl.
Qed.

Lemma Write_sticky (b : Writer) (p : list byte) (e : error) :
  werr b = Some e -> Write b p = (b, 0%nat, Some e).
Proof.
  intros He. unfold Write. cbn [writeLoop]. rewrite He. cbn [isNil].
  rewrite andb_false_r, He. reflexivity.
Qed.

Lemma Write_err_sticks (b b' : Writer) (p : list byte) (n : nat) (e : error) :
  Write b p = (b', n, Some e) -> werr b' = Some e.
Proof.
  unfold Write. destruct (writeLoop 2 b p 0) as [[b1 p1] nn].
  destruct (werr b1) as [e1|] eqn:He1; [|discriminate].
  intros [= <- _ <-]. exact He1.
Qed.

Lemma setWriter_bw (enc : Encoder.t) : Encoder.setWriter enc (Encoder.bw enc) = enc.
Proof. now destruct enc. Qed.

Lemma EncodePacket_sticky (enc : Encoder.t) (p : Packet) (e : error) :
  werr (Encoder.bw enc) = Some e -> Encoder.EncodePacket enc p = (enc, Some e).
Proof.
  intros He. unfold Encoder.EncodePacket.
  rewrite writeAndCheck_Write, (Write_sticky _ _ _ He). cbn [fst snd].
  now rewrite setWriter_bw.
Qed.

(** A failed [EncodePacket] whose id is registered has failed in the writer,
    and the writer keeps the error. *)
Lemma EncodePacket_err_werr (enc enc' : Encoder.t) (p : Packet) (crcx : byte)
      (e : error) :
  findCrcX (Encoder.Dialects enc) (MsgID p) = inl crcx ->
  Encoder.EncodePacket enc p = (enc', Some e) ->
  werr (Encoder.bw enc') = Some e.
Proof.
  intros Hx. unfold Encoder.EncodePacket.
  set (hdr := [startByte; _; Encoder.CurrSeqID enc; SysID p; CompID p; MsgID p]).
  rewrite writeAndCheck_Write.
  destruct (Write (Encoder.bw enc) hdr) as [[w1 n1] [e1|]] eqn:H1; cbn [fst snd].
  { intros [= <- <-]. cbn. eapply Write_err_sticks; eassumption. }
  rewrite writeAndCheck_Write. unfold Encoder.setWriter. cbn [Encoder.bw].
  destruct (Write w1 (Payload p)) as [[w2 n2] [e2|]] eqn:H2; cbn [fst snd].
  { intros [= <- <-]. cbn. eapply Write_err_sticks; eassumption. }
  unfold Encoder.setWriter. cbn [Encoder.Dialects]. rewrite Hx.
  rewrite writeAndCheck_Write. unfold Encoder.setWriter. cbn [Encoder.bw].
  set (crcBytes := u16ToBytes _).
  destruct (Write w2 crcBytes) as [[w3 n3] [e3|]] eqn:H3; cbn [fst snd].
  { intros [= <- <-]. cbn. eapply Write_err_sticks; eassumption. }
  destruct (Flush w3) as [w [e4|]] eqn:H4; [|discriminate].
  intros [= <- <-]. cbn. eapply Flush_err; eassumption.
Qed.

(** X14.  Once [EncodePacket] has failed in the writer, the encoder is dead: every
    later [EncodePacket] fails with the same error and changes nothing, and
    the counter stays where the failed call found it. *)
Theorem EncodePacket_write_error_is_final
        (enc enc1 : Encoder.t) (p p2 : Packet) (crcx : byte) (e : error) :
  findCrcX (Encoder.Dialects enc) (MsgID p) = inl crcx ->
  Encoder.EncodePacket enc p = (enc1, Some e) ->
  Encoder.EncodePacket enc1 p2 = (enc1, Some e)
  /\ Encoder.CurrSeqID enc1 = Encoder.CurrSeqID enc.
Proof.
  intros Hx Hfail. split.
  - apply EncodePacket_sticky. eapply EncodePacket_err_werr; eassumption.
  - now apply EncodePacket_err in Hfail.
Qed.

Lemma EncodePacket_write_error_is_final_witness :
  findCrcX (Encoder.Dialects tightEncoder) (MsgID samplePacket) = inl Byte.x32
  /\ Encoder.EncodePacket tightEncoder samplePacket
     = (fst (Encoder.EncodePacket tightEncoder samplePacket), Some ErrIO)
  /\ Encoder.EncodePacket (fst (Encoder.EncodePacket tightEncoder samplePacket))
       dataPacket
     = (fst (Encoder.EncodePacket tightEncoder samplePacket), Some ErrIO)
  /\ Encoder.CurrSeqID (fst (Encoder.EncodePacket tightEncoder samplePacket))
     = Encoder.CurrSeqID tightEncoder.
Proof.
  assert (H : Encoder.EncodePacket tightEncoder samplePacket
              = (fst (Encoder.EncodePacket tightEncoder samplePacket), Some ErrIO))
    by (vm_compute; reflexivity).
  split; [reflexivity|split; [exact H|]].
  apply (EncodePacket_write_error_is_final tightEncoder _ samplePacket dataPacket
           Byte.x32 ErrIO eq_refl H).
Defined.

(** In the example the sink took the three bytes it had room for, and the
    other five stay in the buffer. *)
Example tightEncoder_partial_write :
  out (wr (Encoder.bw (fst (Encoder.EncodePacket tightEncoder samplePacket))))
  = [Byte.xfe; Byte.x00; Byte.x00]
  /\ buf (Encoder.bw (fst (Encoder.EncodePacket tightEncoder samplePacket)))
     = [Byte.x01; Byte.x01; Byte.x00; Byte.x86; Byte.x5c].
Proof. split; vm_compute; reflexivity. Qed.

Lemma EncodePacket_nil_budget (enc enc' : Encoder.t) (p : Packet) :
  Encoder.EncodePacket enc p = (enc', None) ->
  (budget (wr (Encoder.bw enc')) + length (out (wr (Encoder.bw enc')))
   = budget (wr (Encoder.bw enc)) + length (out (wr (Encoder.bw enc))))%nat.
Proof.
  unfold Encoder.EncodePacket.
  set (hdr := [startByte; _; Encoder.CurrSeqID enc; SysID p; CompID p; MsgID p]).
  destruct (Encoder.writeAndCheck enc hdr) as [enc1 [e|]] eqn:H1; [discriminate|].
  apply writeAndCheck_nil in H1. destruct H1 as (w1 & -> & H1).
  destruct (Encoder.writeAndCheck (Encoder.setWriter enc w1) (Payload p))
    as [enc2 [e|]] eqn:H2; [discriminate|].
  apply writeAndCheck_nil in H2. destruct H2 as (w2 & -> & H2).
  cbn [Encoder.setWriter Encoder.Dialects Encoder.bw Encoder.CurrSeqID] in *.
  destruct (findCrcX (Encoder.Dialects enc) (MsgID p)) as [crcx|e]; [|discriminate].
  set (crcBytes := u16ToBytes _).
  destruct (Encoder.writeAndCheck _ crcBytes) as [enc3 [e|]] eqn:H3; [discriminate|].
  apply writeAndCheck_nil in H3. destruct H3 as (w3 & -> & H3).
  cbn [Encoder.setWriter Encoder.Dialects Encoder.bw Encoder.CurrSeqID] in *.
  destruct (Flush w3) as [w [e|]] eqn:H4; [discriminate|].
  intros [= <-]. cbn [Encoder.bw].
  apply Write_nil in H1. destruct H1 as (_ & _ & _ & _ & _ & B1).
  apply Write_nil in H2. destruct H2 as (_ & _ & _ & _ & _ & B2).
  apply Write_nil in H3. destruct H3 as (_ & _ & _ & _ & _ & B3).
  apply Flush_nil in H4. destruct H4 as (_ & _ & _ & _ & Ho4 & Hle & B4).
  rewrite B4, Ho4, length_app. lia.
Qed.

(** X15.  With a healthy writer and a registered id, [EncodePacket] succeeds
    exactly when the sink has room for what is buffered and the whole frame
    of [hdrLen], payload and [numChecksumBytes] bytes. *)
Theorem EncodePacket_succeeds_iff_room
        (enc : Encoder.t) (p : Packet) (crcx : byte) :
  werr (Encoder.bw enc) = None ->
  findCrcX (Encoder.Dialects enc) (MsgID p) = inl crcx ->
  (exists enc', Encoder.EncodePacket enc p = (enc', None))
  <-> (length (buf (Encoder.bw enc)) + (hdrLen + length (Payload p) + numChecksumBytes)
       <= budget (wr (Encoder.bw enc)))%nat.
Proof.
  intros He Hx. unfold hdrLen, numChecksumBytes. split.
  - intros [enc' Henc].
    pose proof (EncodePacket_nil_budget _ _ _ Henc) as Hb.
    apply EncodePacket_nil in Henc.
    destruct Henc as (crcx' & _ & _ & _ & _ & _ & _ & Hout).
    apply (f_equal (@length byte)) in Hout.
    unfold frameBytes, u16ToBytes in Hout.
    rewrite !length_app in Hout. cbn [length] in Hout. lia.
  - intros Hroom. apply (EncodePacket_budget enc p crcx); [|assumption].
    split; [assumption|lia].
Qed.

Lemma EncodePacket_succeeds_iff_room_witness :
  werr (Encoder.bw tightEncoder) = None
  /\ findCrcX (Encoder.Dialects tightEncoder) (MsgID samplePacket) = inl Byte.x32
  /\ ((exists enc', Encoder.EncodePacket tightEncoder samplePacket = (enc', None))
      <-> (length (buf (Encoder.bw tightEncoder))
           + (hdrLen + length (Payload samplePacket) + numChecksumBytes)
           <= budget (wr (Encoder.bw tightEncoder)))%nat).
Proof.
  split; [reflexivity|split; [reflexivity|]].
  apply (EncodePacket_succeeds_iff_room tightEncoder samplePacket Byte.x32
           eq_refl eq_refl).
Defined.

(** X16.  [Encode] sends the packet the message packed itself into under the
    system and component ids it was given, whatever ids [Pack] had set; when
    [Pack] fails, [Encode] returns its error and leaves the encoder as it
    was. *)
Theorem Encode_stamps_ids
        (enc enc' : Encoder.t) (sysID compID : byte)
        (pack packBad : Packet -> Packet + error) (p : Packet) (err : error) :
  pack zeroPacket = inl p ->
  packBad zeroPacket = inr err ->
  Encoder.Encode enc sysID compID pack = (enc', None) ->
  (exists crcx l sum,
      findCrcX (Encoder.Dialects enc) (MsgID p) = inl crcx
      /\ out (wr (Encoder.bw enc'))
         = out (wr (Encoder.bw enc)) ++ buf (Encoder.bw enc)
             ++ [startByte; l; Encoder.CurrSeqID enc; sysID; compID; MsgID p]
             ++ Payload p ++ u16ToBytes sum
      /\ l = byte.of_Z (Z.of_nat (length (Payload p)))
      /\ sum = checksumOf [l; Encoder.CurrSeqID enc; sysID; compID; MsgID p]
                 (Payload p) crcx)
  /\ Encoder.Encode enc sysID compID packBad = (enc, Some err).
Proof.
  intros Hpack Hbad Henc. split.
  - revert Henc. unfold Encoder.Encode. change (pack _) with (pack zeroPacket).
    rewrite Hpack. intros Henc. apply EncodePacket_nil in Henc.
    destruct Henc as (crcx & Hx & _ & _ & _ & _ & _ & Hout).
    exists crcx. eexists _, _. split; [exact Hx|].
    split; [exact Hout|]. split; reflexivity.
  - unfold Encoder.Encode. change (packBad _) with (packBad zeroPacket).
    now rewrite Hbad.
Qed.

Lemma Encode_stamps_ids_witness :
  samplePack zeroPacket = inl {| SeqID := Byte.x00; SysID := Byte.x63;
                                 CompID := Byte.x63; MsgID := Byte.x01;
                                 Payload := [Byte.x10; Byte.x20; Byte.xfe];
                                 Checksum := 0 |}
  /\ failingPack zeroPacket = inr ErrIO
  /\ Encoder.Encode sampleEncoder Byte.x03 Byte.x04 samplePack
     = (fst (Encoder.Encode sampleEncoder Byte.x03 Byte.x04 samplePack), None)
  /\ (exists crcx l sum,
         findCrcX (Encoder.Dialects sampleEncoder) Byte.x01 = inl crcx
         /\ out (wr (Encoder.bw
                       (fst (Encoder.Encode sampleEncoder Byte.x03 Byte.x04 samplePack))))
            = out (wr (Encoder.bw sampleEncoder)) ++ buf (Encoder.bw sampleEncoder)
                ++ [startByte; l; Encoder.CurrSeqID sampleEncoder; Byte.x03; Byte.x04;
                    Byte.x01]
                ++ [Byte.x10; Byte.x20; Byte.xfe] ++ u16ToBytes sum
         /\ l = byte.of_Z (Z.of_nat (length [Byte.x10; Byte.x20; Byte.xfe]))
         /\ sum = checksumOf [l; Encoder.CurrSeqID sampleEncoder; Byte.x03; Byte.x04;
                              Byte.x01] [Byte.x10; Byte.x20; Byte.xfe] crcx)
  /\ Encoder.Encode sampleEncoder Byte.x03 Byte.x04 failingPack
     = (sampleEncoder, Some ErrIO).
Proof.
  assert (H : Encoder.Encode sampleEncoder Byte.x03 Byte.x04 samplePack
              = (fst (Encoder.Encode sampleEncoder Byte.x03 Byte.x04 samplePack),
                 None)) by (vm_compute; reflexivity).
  split; [reflexivity|split; [reflexivity|split; [exact H|]]].
  apply (Encode_stamps_ids sampleEncoder _ Byte.x03 Byte.x04 samplePack failingPack
           _ ErrIO eq_refl eq_refl H).
Defined.

(** ** One frame after another *)

(** X17.  A whole frame, whatever [Decode] makes of it (accepted, unknown id or
    checksum mismatch), does not disturb the frame after it: the next
    [Decode] returns the following valid frame with no error. *)
Theorem Decode_next_frame
        (dec : Decoder.t) (g payload rest : list byte)
        (l seq sys comp msgid c0 c1 : byte) (e : error)
        (seq2 : byte) (p2 : Packet) (crcx2 : byte) :
  Forall (fun c => c <> startByte) g ->
  length payload = Z.to_nat (byte.unsigned l) ->
  (length (Payload p2) <= 255)%nat ->
  findCrcX (Decoder.Dialects dec) (MsgID p2) = inl crcx2 ->
  exists dec1 q1 err1 dec2,
    Decoder.Decode
      (Decoder.setReader dec
         {| pending := g ++ startByte :: l :: seq :: sys :: comp :: msgid
                         :: payload ++ c0 :: c1 :: frameBytes seq2 p2 crcx2 ++ rest;
            fail := e |})
    = Done (dec1, q1, err1)
    /\ Decoder.Decode dec1 = Done (dec2, Some (received seq2 p2 crcx2), None)
    /\ Decoder.CurrSeqID dec2 = seq2
    /\ Decoder.br dec2 = {| pending := rest; fail := e |}.
Proof.
  intros Hg Hlen Hlen2 Hx2.
  rewrite (Decode_frame _ g payload (frameBytes seq2 p2 crcx2 ++ rest)
             l seq sys comp msgid c0 c1 e Hg Hlen) by reflexivity.
  cbv zeta. cbn [Decoder.setReader Decoder.Dialects].
  destruct (findCrcX (Decoder.Dialects dec) msgid) as [crcx|e3];
    [destruct (le16 c0 c1 =? _)|];
    eexists _, _, _, _; (split; [reflexivity|]);
    (rewrite (Decode_frameBytes _ seq2 p2 crcx2 rest e Hlen2) by (exact Hx2 || reflexivity));
    repeat split.
Qed.

Lemma Decode_next_frame_witness :
  Forall (fun c => c <> startByte) [Byte.x11]
  /\ length [Byte.xaa] = Z.to_nat (byte.unsigned Byte.x01)
  /\ (length (Payload dataPacket) <= 255)%nat
  /\ findCrcX (Decoder.Dialects (sampleDecoder [])) (MsgID dataPacket) = inl Byte.x7c
  /\ exists dec1 q1 err1 dec2,
      Decoder.Decode
        (Decoder.setReader (sampleDecoder [])
           {| pending := [Byte.x11] ++ startByte :: Byte.x01 :: Byte.x05 :: Byte.x01
                           :: Byte.x02 :: Byte.x00
                           :: [Byte.xaa] ++ Byte.x12 :: Byte.x34
                           :: frameBytes Byte.x06 dataPacket Byte.x7c ++ [Byte.x56];
              fail := EOF |})
      = Done (dec1, q1, err1)
      /\ Decoder.Decode dec1
         = Done (dec2, Some (received Byte.x06 dataPacket Byte.x7c), None)
      /\ Decoder.CurrSeqID dec2 = Byte.x06
      /\ Decoder.br dec2 = {| pending := [Byte.x56]; fail := EOF |}.
Proof.
  assert (Hg : Forall (fun c => c <> startByte) [Byte.x11])
    by (repeat constructor; discriminate).
  assert (Hl : (length (Payload dataPacket) <= 255)%nat) by (cbn; lia).
  split; [exact Hg|split; [reflexivity|split; [exact Hl|split; [reflexivity|]]]].
  apply (Decode_next_frame (sampleDecoder []) [Byte.x11] [Byte.xaa] [Byte.x56]
           Byte.x01 Byte.x05 Byte.x01 Byte.x02 Byte.x00 Byte.x12 Byte.x34 EOF
           Byte.x06 dataPacket Byte.x7c Hg eq_refl Hl eq_refl).
Defined.

(** In the example the first frame is rejected for its checksum. *)
Example Decode_next_frame_after_mismatch :
  exists dec1 q1,
    Decoder.Decode
      (sampleDecoder
         ([Byte.x11] ++ startByte :: Byte.x01 :: Byte.x05 :: Byte.x01 :: Byte.x02
            :: Byte.x00 :: [Byte.xaa] ++ Byte.x12 :: Byte.x34
            :: frameBytes Byte.x06 dataPacket Byte.x7c ++ [Byte.x56]))
    = Done (dec1, Some q1, Some ErrCrcFail).
Proof. vm_compute. eauto. Qed.
